(** * chart-streams: the history-driven chart index

    A shallow embedding of [pkg/chartstreams/index/git.go]: the builder
    that walks the commits of a Git repository, reads the version of
    every chart directory found at each commit, pins every
    (name, version) pair to a commit, and derives the Helm index file.

    The development follows the Go packages the source imports, one
    module per package.  Collaborators whose code lives outside the
    source (go-git, go-billy, ioutil, Helm) appear through the results
    of their calls. *)

From Stdlib Require Import ZArith String Ascii OrderedTypeEx.
From stdpp Require Import base option list sorting gmap strings.

(** ** Go values shared by all packages *)

(** Go's [error] values, as far as the builder tells them apart.
    [ErrChartNotFound] is the package variable of [index], made by
    [errors.New]; [io_EOF] is the end-of-sequence signal of package [io];
    [fmt_Errorf] is an error built by [fmt.Errorf]; [lib_error] is an
    error value made inside a collaborator (go-git, go-billy, ioutil,
    chartutil).  Go compares errors by identity, so a collaborator's
    error is never equal to one of the two variables. *)
Inductive error : Type :=
| ErrChartNotFound
| io_EOF
| fmt_Errorf (msg : string)
| lib_error (msg : string).

#[global] Instance error_eq_dec : EqDecision error.
Proof. solve_decision. Defined.

(** What a call into a collaborator gives back: a value, or an error
    value of the collaborator's own with its message. *)
Inductive result (A : Type) : Type :=
| ok (a : A)
| failed (msg : string).
Arguments ok {A} a.
Arguments failed {A} msg.

(** ** Package [plumbing] *)
Module plumbing.
(** A commit hash, written in hexadecimal. *)
Definition Hash : Type := string.
End plumbing.

(** ** Package [object] *)
Module object.
(** The two fields of a commit the builder reads: [c.Hash] and
    [c.Committer.When] (seconds since the epoch). *)
Record Commit : Type := {
  Hash : plumbing.Hash;
  Committer_When : Z
}.

(** A commit iterator: the commits still to come and the error that
    [Next] reports once they are used up ([io_EOF] at the natural end
    of the history, another error if the repository cannot be read
    further). *)
Record CommitIter : Type := {
  pending : list Commit;
  final : error
}.

(** [commitIter.Next()]: the next commit with a nil error, or a nil
    commit with the final error. *)
Definition Next (it : CommitIter) : (option Commit * option error) * CommitIter :=
  match pending it with
  | c :: rest => ((Some c, None), {| pending := rest; final := final it |})
  | [] => ((None, Some (final it)), it)
  end.
End object.

(** ** Package [billy]: the file system of the work tree *)
Module billy.
Record FileInfo : Type := {
  Name : string;
  IsDir : bool
}.

(** An open file; [ReadAll] is what [ioutil.ReadAll] gets from it. *)
Record File : Type := {
  ReadAll : result string
}.

Record Filesystem : Type := {
  Lstat : string → result FileInfo;
  ReadDir : string → result (list FileInfo);
  Join : string → string → string;
  Open : string → result File
}.
End billy.

(** ** Package [git] *)
Module git.
(** The work tree.  [Checkout] changes the files of the work tree to
    those of the commit with the given hash; the file system read
    after a successful checkout is its result. *)
Record Worktree : Type := {
  Checkout : plumbing.Hash → result billy.Filesystem
}.
End git.

(** ** Package [chart] *)
Module chart.
(** Helm's chart metadata, with the fields the builder touches. *)
Record Metadata : Type := {
  Name : string;
  Version : string;
  ApiVersion : string
}.

Definition GetVersion (m : Metadata) : string := Version m.
End chart.

(** ** Package [repo] *)
Module repo.
Record CommitInfo : Type := {
  Time : Z;
  Hash : plumbing.Hash
}.

(** Modelled from the spec: [repo.GitChartRepo], whose package is not
    among the sources.  Section 4.1 gives it [AllCommits()], a finite
    sequence of the commits of the history, and a single work tree on
    which [Checkout(hash)] either fails or shows the tree of that
    commit.  Both calls can fail with a repository error. *)
Record GitChartRepo : Type := {
  AllCommits : result object.CommitIter;
  Worktree : result git.Worktree
}.
End repo.

(** ** Package [helmrepo] *)
Module helmrepo.
(** One call of [IndexFile.Add]: the metadata, the file name, the base
    URL and the digest it was given. *)
Record ChartVersion : Type := {
  Metadata : chart.Metadata;
  filename : string;
  baseURL : string;
  Digest : string
}.

(** The index file, as the entries added to it, oldest first. *)
Abbreviation IndexFile := (list ChartVersion) (only parsing).

Definition NewIndexFile : IndexFile := [].

Definition Add (i : IndexFile) (md : chart.Metadata)
    (filename baseURL digest : string) : IndexFile :=
  i ++ [ {| Metadata := md; filename := filename;
            baseURL := baseURL; Digest := digest |} ].
End helmrepo.

(** ** Package [index] *)
Module index.

Record ChartNameVersion : Type := {
  name : string;
  version : string
}.

#[global] Instance ChartNameVersion_eq_dec : EqDecision ChartNameVersion.
Proof. solve_decision. Defined.

#[global] Instance ChartNameVersion_countable : Countable ChartNameVersion.
Proof.
  apply (inj_countable' (λ k, (name k, version k))
                        (λ p, {| name := p.1; version := p.2 |})).
  by intros [].
Defined.

Record gitChartIndexBuilder : Type := {
  gitChartRepo : repo.GitChartRepo;
  versionCommitMap : gmap ChartNameVersion repo.CommitInfo;
  basePath : string
}.

Record Index : Type := {
  IndexFile : helmrepo.IndexFile;
  chartNameVersionToCommitMap : gmap ChartNameVersion repo.CommitInfo
}.

(** What a call of [Build] ends in: the pair it returns, or a panic
    (a nil pointer dereference). *)
Inductive outcome : Type :=
| Return (file : option Index) (err : option error)
| Panic.

(** [NewGitChartIndexBuilder]: a builder with an empty map.  The base
    path is the zero value until [SetBasePath]. *)
Definition NewGitChartIndexBuilder (r : repo.GitChartRepo) : gitChartIndexBuilder :=
  {| gitChartRepo := r; versionCommitMap := ∅; basePath := "" |}.

Definition SetBasePath (g : gitChartIndexBuilder) (basePath : string)
    : gitChartIndexBuilder :=
  {| gitChartRepo := gitChartRepo g;
     versionCommitMap := versionCommitMap g;
     basePath := basePath |}.

(** The Go map is shared by the builder and every copy of it, so the
    assignment is seen by the caller: the map is passed in and the
    updated map handed back. *)
Definition addChartNameVersionToCommitMap
    (versionCommitMap : gmap ChartNameVersion repo.CommitInfo)
    (name version : string) (hash : plumbing.Hash) (t : Z)
    : gmap ChartNameVersion repo.CommitInfo :=
  let cnv := {| name := name; version := version |} in
  <[ cnv := {| repo.Time := t; repo.Hash := hash |} ]> versionCommitMap.

(** [sort.Slice]'s comparison function in [Build]; [<] on Go strings
    compares them byte by byte. *)
Definition less (a b : ChartNameVersion) : bool :=
  if String.ltb (name a) (name b) then true
  else if String.eqb (name a) (name b) then String.ltb (version a) (version b)
  else false.

(** [a] may stand before [b] in a slice sorted by [less]. *)
Definition not_after (a b : ChartNameVersion) : Prop := less b a = false.

#[global] Instance not_after_dec a b : Decision (not_after a b).
Proof. unfold not_after. apply _. Defined.

(** [sort.Slice(s, less)], here as a merge sort.  Go's algorithm is
    another and is not stable; on the keys of a map, which are
    distinct, every sort by [less] gives the same slice
    ([sort_Slice_unique] below). *)
Definition sort_Slice (s : list ChartNameVersion) : list ChartNameVersion :=
  merge_sort not_after s.

(** [for k := range m]: the keys of the map.  Go visits them in an
    order of its own choosing; the slice is sorted before use. *)
Definition range_keys (m : gmap ChartNameVersion repo.CommitInfo)
    : list ChartNameVersion :=
  (map_to_list m).*1.

(** The body of the loop that fills the index file, for one key.  The
    metadata literal names [Name] and [ApiVersion]; [Version] keeps Go's
    zero value. *)
Definition add_entry (indexFile : helmrepo.IndexFile) (c : ChartNameVersion)
    : helmrepo.IndexFile :=
  let m := {| chart.Name := name c;
              chart.Version := "";
              chart.ApiVersion := version c |} in
  let baseUrl := "/chart/" +:+ name c +:+ "/" +:+ version c in
  helmrepo.Add indexFile m "chart.tgz" baseUrl "deadbeef".

(** The part of [Build] after the walk. *)
Definition derive (versionCommitMap : gmap ChartNameVersion repo.CommitInfo)
    : Index :=
  let indexFile := helmrepo.NewIndexFile in
  let allChartsVersions := range_keys versionCommitMap in
  let allChartsVersions := sort_Slice allChartsVersions in
  let indexFile := foldl add_entry indexFile allChartsVersions in
  {| IndexFile := indexFile;
     chartNameVersionToCommitMap := versionCommitMap |}.

Section with_chartutil.

(** [chartutil.UnmarshalChartfile]: Helm's parser of [Chart.yaml]. *)
Variable UnmarshalChartfile : string → result chart.Metadata.

(** [getChartVersion(wt, chartPath)], on the file system of the
    work tree.  The pair is Go's [(string, error)]. *)
Definition getChartVersion (fs : billy.Filesystem) (chartPath : string)
    : string * option error :=
  match billy.Lstat fs chartPath with
  | failed msg => ("", Some (lib_error msg))
  | ok chartDirInfo =>
    if negb (billy.IsDir chartDirInfo) then
      (* [return "", err] with the nil [err] of [Lstat] *)
      ("", None)
    else
      let chartYamlPath := billy.Join fs chartPath "Chart.yaml" in
      match billy.Open fs chartYamlPath with
      | failed msg => ("", Some (lib_error msg))
      | ok chartYamlFile =>
        match billy.ReadAll chartYamlFile with
        | failed msg => ("", Some (lib_error msg))
        | ok b =>
          match UnmarshalChartfile b with
          | failed msg => ("", Some (lib_error msg))
          | ok chartYaml => (chart.GetVersion chartYaml, None)
          end
        end
      end
  end.

(** The loop over the entries of the base path at commit [c]:
    [inl err] when the loop makes [Build] return [err], [inr m]
    with the map after the last entry otherwise. *)
Fixpoint range_entries (fs : billy.Filesystem) (basePath : string)
    (c : object.Commit) (chartDirEntries : list billy.FileInfo)
    (m : gmap ChartNameVersion repo.CommitInfo)
    : error + gmap ChartNameVersion repo.CommitInfo :=
  match chartDirEntries with
  | [] => inr m
  | entry :: rest =>
    let chartName := billy.Name entry in
    let chartPath := billy.Join fs basePath chartName in
    match getChartVersion fs chartPath with
    | (_, Some err) =>
      if bool_decide (err ≠ ErrChartNotFound) then inl err
      else (* continue *) range_entries fs basePath c rest m
    | (chartVersion, None) =>
      range_entries fs basePath c rest
        (addChartNameVersionToCommitMap m chartName chartVersion
           (object.Hash c) (object.Committer_When c))
    end
  end.

(** One pass through the body of [for { ... }]. *)
Inductive step : Type :=
| Continue (m : gmap ChartNameVersion repo.CommitInfo)
| Break (m : gmap ChartNameVersion repo.CommitInfo)
| Exit (o : outcome).

(** The body of the loop, given what [commitIter.Next()] returned. *)
Definition iteration (ib : gitChartIndexBuilder)
    (c : option object.Commit) (err : option error)
    (m : gmap ChartNameVersion repo.CommitInfo) : step :=
  if bool_decide (err ≠ None) && bool_decide (err ≠ Some io_EOF) then Break m
  else
    match repo.Worktree (gitChartRepo ib) with
    | failed msg => Exit (Return None (Some (lib_error msg)))
    | ok w =>
      match c with
      | None => (* [c.Hash] on a nil commit *) Exit Panic
      | Some c =>
        match git.Checkout w (object.Hash c) with
        | failed msg => Exit (Return None (Some (lib_error msg)))
        | ok fs =>
          match billy.ReadDir fs (basePath ib) with
          | failed msg => Exit (Return None (Some (lib_error msg)))
          | ok chartDirEntries =>
            match range_entries fs (basePath ib) c chartDirEntries m with
            | inl err => Exit (Return None (Some err))
            | inr m' => Continue m'
            end
          end
        end
      end
    end.

(** The loop [for { c, err := commitIter.Next(); ... }], by
    recursion on the commits still to come.  Once they are used up
    [Next] gives a nil commit, and the body run on a nil commit
    never reaches the next pass ([iteration_nil_commit] below), so
    its [Continue] case is only there for the types.  [inl m]: the
    loop was left by [break] with map [m]; [inr o]: [Build] ended
    inside the loop. *)
Fixpoint walk (ib : gitChartIndexBuilder) (pending : list object.Commit)
    (final : error) (m : gmap ChartNameVersion repo.CommitInfo)
    : gmap ChartNameVersion repo.CommitInfo + outcome :=
  match pending with
  | c :: rest =>
    match iteration ib (Some c) None m with
    | Continue m' => walk ib rest final m'
    | Break m' => inl m'
    | Exit o => inr o
    end
  | [] =>
    match iteration ib None (Some final) m with
    | Continue m' | Break m' => inl m'
    | Exit o => inr o
    end
  end.

Definition for_loop (ib : gitChartIndexBuilder) (commitIter : object.CommitIter)
    (m : gmap ChartNameVersion repo.CommitInfo)
    : gmap ChartNameVersion repo.CommitInfo + outcome :=
  walk ib (object.pending commitIter) (object.final commitIter) m.

(** [Build]. *)
Definition Build (ib : gitChartIndexBuilder) : outcome :=
  match repo.AllCommits (gitChartRepo ib) with
  | failed msg =>
    Return None
      (Some (fmt_Errorf ("Initialize(): error getting commit iterator: " +:+ msg)))
  | ok commitIter =>
    match for_loop ib commitIter (versionCommitMap ib) with
    | inr o => o
    | inl m => Return (Some (derive m)) None
    end
  end.

End with_chartutil.
End index.

(** ** What the claims speak of *)

(** The commit reference [Build] stores for a commit. *)
Definition info_of (c : object.Commit) : repo.CommitInfo :=
  {| repo.Time := object.Committer_When c; repo.Hash := object.Hash c |}.

(** Commit [c] declares package [k]: with [c] checked out, the base
    path lists an entry named as [k] whose version, as
    [getChartVersion] reads it, is that of [k]. *)
Definition declares (U : string → result chart.Metadata)
    (ib : index.gitChartIndexBuilder) (c : object.Commit)
    (k : index.ChartNameVersion) : Prop :=
  ∃ w fs entries entry,
    repo.Worktree (index.gitChartRepo ib) = ok w ∧
    git.Checkout w (object.Hash c) = ok fs ∧
    billy.ReadDir fs (index.basePath ib) = ok entries ∧
    entry ∈ entries ∧
    billy.Name entry = index.name k ∧
    index.getChartVersion U fs
      (billy.Join fs (index.basePath ib) (billy.Name entry))
    = (index.version k, None).

(** The key of a candidate entry, when [getChartVersion] returns a nil
    error for it. *)
Definition key_of (U : string → result chart.Metadata)
    (fs : billy.Filesystem) (basePath : string) (entry : billy.FileInfo)
    : option index.ChartNameVersion :=
  match index.getChartVersion U fs (billy.Join fs basePath (billy.Name entry)) with
  | (chartVersion, None) =>
    Some {| index.name := billy.Name entry; index.version := chartVersion |}
  | (_, Some _) => None
  end.

(** The keys a pass of the loop body writes for commit [c], in the
    order written, when the work tree, the checkout and the listing of
    the base path give no error. *)
Definition commit_keys (U : string → result chart.Metadata)
    (ib : index.gitChartIndexBuilder) (c : object.Commit)
    : list index.ChartNameVersion :=
  match repo.Worktree (index.gitChartRepo ib) with
  | ok w =>
    match git.Checkout w (object.Hash c) with
    | ok fs =>
      match billy.ReadDir fs (index.basePath ib) with
      | ok entries => omap (key_of U fs (index.basePath ib)) entries
      | failed _ => []
      end
    | failed _ => []
    end
  | failed _ => []
  end.

(** The assignments to the map made while visiting the commits [cs],
    oldest assignment first. *)
Definition writes (U : string → result chart.Metadata)
    (ib : index.gitChartIndexBuilder) (cs : list object.Commit)
    : list (index.ChartNameVersion * repo.CommitInfo) :=
  cs ≫= λ c, (λ k, (k, info_of c)) <$> commit_keys U ib c.

Definition apply_writes
    (m : gmap index.ChartNameVersion repo.CommitInfo)
    (ws : list (index.ChartNameVersion * repo.CommitInfo))
    : gmap index.ChartNameVersion repo.CommitInfo :=
  foldl (λ m kv, <[ kv.1 := kv.2 ]> m) m ws.

(** The map after the commits [cs] have been visited one after the
    other from map [m], if no pass left the loop. *)
Fixpoint visited (U : string → result chart.Metadata)
    (ib : index.gitChartIndexBuilder) (cs : list object.Commit)
    (m : gmap index.ChartNameVersion repo.CommitInfo)
    : option (gmap index.ChartNameVersion repo.CommitInfo) :=
  match cs with
  | [] => Some m
  | c :: rest =>
    match index.iteration U ib (Some c) None m with
    | index.Continue m' => visited U ib rest m'
    | _ => None
    end
  end.

(** The index entry [Build] emits for key [k]. *)
Definition entry_of (k : index.ChartNameVersion) : helmrepo.ChartVersion :=
  {| helmrepo.Metadata := {| chart.Name := index.name k;
                             chart.Version := "";
                             chart.ApiVersion := index.version k |};
     helmrepo.filename := "chart.tgz";
     helmrepo.baseURL := "/chart/" +:+ index.name k +:+ "/" +:+ index.version k;
     helmrepo.Digest := "deadbeef" |}.

(** The order C5 speaks of: by the name of the entry, then by its
    version, the field [chart.GetVersion] reads; both compared byte by
    byte. *)
Definition entry_before (e1 e2 : helmrepo.ChartVersion) : Prop :=
  String.ltb (chart.Name (helmrepo.Metadata e1))
             (chart.Name (helmrepo.Metadata e2)) = true
  ∨ (chart.Name (helmrepo.Metadata e1) = chart.Name (helmrepo.Metadata e2)
     ∧ String.ltb (chart.GetVersion (helmrepo.Metadata e1))
                  (chart.GetVersion (helmrepo.Metadata e2)) = true).

(** The builder as a run of [Build] leaves it: same repository and base
    path, the map as the run filled it. *)
Definition with_map (ib : index.gitChartIndexBuilder)
    (m : gmap index.ChartNameVersion repo.CommitInfo)
    : index.gitChartIndexBuilder :=
  {| index.gitChartRepo := index.gitChartRepo ib;
     index.versionCommitMap := m;
     index.basePath := index.basePath ib |}.

(** *** The claims that the code does not meet, as propositions *)

(** Earliest commit wins: of two visited commits declaring the same
    package, the index is pinned to the one with the earlier timestamp. *)
Definition earliest_commit_wins (U : string → result chart.Metadata)
    (ib : index.gitChartIndexBuilder) : Prop :=
  ∀ it idx c1 c2 k,
    repo.AllCommits (index.gitChartRepo ib) = ok it →
    c1 ∈ object.pending it → c2 ∈ object.pending it →
    (object.Committer_When c1 < object.Committer_When c2)%Z →
    declares U ib c1 k → declares U ib c2 k →
    index.Build U ib = index.Return (Some idx) None →
    index.chartNameVersionToCommitMap idx !! k = Some (info_of c1).

(** Download path without prefix: the entry emitted for a key carries
    the path made of a slash, the name, a slash and the version. *)
Definition download_path_is_name_version (U : string → result chart.Metadata)
    (ib : index.gitChartIndexBuilder) : Prop :=
  ∀ idx k,
    index.Build U ib = index.Return (Some idx) None →
    is_Some (index.chartNameVersionToCommitMap idx !! k) →
    ∃ e, e ∈ index.IndexFile idx ∧
         chart.Name (helmrepo.Metadata e) = index.name k ∧
         chart.ApiVersion (helmrepo.Metadata e) = index.version k ∧
         helmrepo.baseURL e = "/" +:+ index.name k +:+ "/" +:+ index.version k.

(** ** Sample repositories *)
Module sample.

(** A stand-in for Helm's parser: a chart file is the line
    [version: <version>]. *)
Definition parse (b : string) : result chart.Metadata :=
  if String.prefix "version: " b then
    ok {| chart.Name := "";
          chart.Version := String.substring 9 (String.length b - 9) b;
          chart.ApiVersion := "v1" |}
  else failed "error unmarshaling chart file".

Inductive node : Type :=
| dir (entries : list billy.FileInfo)
| file (content : string).

Fixpoint find (path : string) (tree : list (string * node)) : option node :=
  match tree with
  | [] => None
  | (p, n) :: rest => if String.eqb path p then Some n else find path rest
  end.

(** A file system given by its paths. *)
Definition fs_of (tree : list (string * node)) : billy.Filesystem :=
  {| billy.Lstat path :=
       match find path tree with
       | Some (dir _) => ok {| billy.Name := path; billy.IsDir := true |}
       | Some (file _) => ok {| billy.Name := path; billy.IsDir := false |}
       | None => failed "file does not exist"
       end;
     billy.ReadDir path :=
       match find path tree with
       | Some (dir entries) => ok entries
       | Some (file _) => failed "not a directory"
       | None => failed "file does not exist"
       end;
     billy.Join a b := a +:+ "/" +:+ b;
     billy.Open path :=
       match find path tree with
       | Some (file content) => ok {| billy.ReadAll := ok content |}
       | Some (dir _) => ok {| billy.ReadAll := failed "is a directory" |}
       | None => failed "file does not exist"
       end |}.

(** A work tree given by the tree of every commit. *)
Definition worktree_of (trees : list (string * list (string * node)))
    : git.Worktree :=
  {| git.Checkout hash :=
       match list_find (λ t, String.eqb hash t.1 = true) trees with
       | Some (_, (_, tree)) => ok (fs_of tree)
       | None => failed "object not found"
       end |}.

Definition builder (trees : list (string * list (string * node)))
    (commits : list object.Commit) (final : error)
    : index.gitChartIndexBuilder :=
  index.SetBasePath
    (index.NewGitChartIndexBuilder
       {| repo.AllCommits := ok {| object.pending := commits;
                                   object.final := final |};
          repo.Worktree := ok (worktree_of trees) |})
    "charts".

(** The tree with one chart, [charts/foo] at version 1.0.0. *)
Definition foo_1_0_0 : list (string * node) :=
  [ ("charts", dir [ {| billy.Name := "foo"; billy.IsDir := true |} ]);
    ("charts/foo", dir [ {| billy.Name := "Chart.yaml"; billy.IsDir := false |} ]);
    ("charts/foo/Chart.yaml", file "version: 1.0.0") ].

(** The tree with two charts, listed [foo] before [bar]: [foo] at
    1.0.0 and [bar] at 0.1.0. *)
Definition bar_and_foo : list (string * node) :=
  [ ("charts", dir [ {| billy.Name := "foo"; billy.IsDir := true |};
                     {| billy.Name := "bar"; billy.IsDir := true |} ]);
    ("charts/foo", dir [ {| billy.Name := "Chart.yaml"; billy.IsDir := false |} ]);
    ("charts/foo/Chart.yaml", file "version: 1.0.0");
    ("charts/bar", dir [ {| billy.Name := "Chart.yaml"; billy.IsDir := false |} ]);
    ("charts/bar/Chart.yaml", file "version: 0.1.0") ].

(** A directory under the base path without [Chart.yaml]. *)
Definition docs_only : list (string * node) :=
  [ ("charts", dir [ {| billy.Name := "docs"; billy.IsDir := true |} ]);
    ("charts/docs", dir []) ].


(** A chart whose [Chart.yaml] does not parse. *)
Definition broken_chart : list (string * node) :=
  [ ("charts", dir [ {| billy.Name := "foo"; billy.IsDir := true |} ]);
    ("charts/foo", dir [ {| billy.Name := "Chart.yaml"; billy.IsDir := false |} ]);
    ("charts/foo/Chart.yaml", file "{{") ].

Definition C1 : object.Commit :=
  {| object.Hash := "c1"; object.Committer_When := 100 |}.
Definition C2 : object.Commit :=
  {| object.Hash := "c2"; object.Committer_When := 200 |}.

Definition foo : index.ChartNameVersion :=
  {| index.name := "foo"; index.version := "1.0.0" |}.
Definition bar : index.ChartNameVersion :=
  {| index.name := "bar"; index.version := "0.1.0" |}.

(** [C1], the earlier commit, is visited first, [C2] second; both
    hold [foo] at 1.0.0.  Then [Next] fails. *)
Definition earlier_first : index.gitChartIndexBuilder :=
  builder [ ("c1", foo_1_0_0); ("c2", foo_1_0_0) ] [ C1; C2 ]
          (lib_error "object not found").

(** The same history walked from the tip: [C2] first, [C1] second. *)
Definition later_first : index.gitChartIndexBuilder :=
  builder [ ("c1", foo_1_0_0); ("c2", foo_1_0_0) ] [ C2; C1 ]
          (lib_error "object not found").

(** One commit with one chart, then [Next] fails with a repository
    error. *)
Definition next_fails : index.gitChartIndexBuilder :=
  builder [ ("c1", foo_1_0_0) ] [ C1 ] (lib_error "object not found").

(** One commit with two charts, then [Next] fails. *)
Definition two_charts : index.gitChartIndexBuilder :=
  builder [ ("c1", bar_and_foo) ] [ C1 ] (lib_error "object not found").

(** A history without commits: [Next] reports [io.EOF] at once. *)
Definition empty_history : index.gitChartIndexBuilder :=
  builder [] [] io_EOF.

(** One commit with one chart, and the natural end of the history. *)
Definition one_commit : index.gitChartIndexBuilder :=
  builder [ ("c1", foo_1_0_0) ] [ C1 ] io_EOF.

Definition missing_chart_yaml : index.gitChartIndexBuilder :=
  builder [ ("c1", docs_only) ] [ C1 ] io_EOF.


Definition unparsable : index.gitChartIndexBuilder :=
  builder [ ("c1", broken_chart) ] [ C1 ] (lib_error "object not found").

End sample.

(** ** Notions for the further properties *)

(** Commit [c] is readable: the work tree is there, [c] can be checked
    out, the base path can be listed, and [getChartVersion] gives a nil
    error for every entry of the listing. *)
Definition readable (U : string → result chart.Metadata)
    (ib : index.gitChartIndexBuilder) (c : object.Commit) : Prop :=
  ∃ w fs entries,
    repo.Worktree (index.gitChartRepo ib) = ok w ∧
    git.Checkout w (object.Hash c) = ok fs ∧
    billy.ReadDir fs (index.basePath ib) = ok entries ∧
    ∀ entry, entry ∈ entries →
      (index.getChartVersion U fs
         (billy.Join fs (index.basePath ib) (billy.Name entry))).2 = None.

(** Two parsers of [Chart.yaml] that fail on the same files with the
    same error and agree on the version of every file they parse; the
    other fields of the metadata may differ. *)
Definition same_versions (U U' : string → result chart.Metadata) : Prop :=
  ∀ b, match U b, U' b with
       | ok md, ok md' => chart.GetVersion md = chart.GetVersion md'
       | failed msg, failed msg' => msg = msg'
       | _, _ => False
       end.


(** *** More sample repositories *)
Module sample_more.



(** A commit whose tree the repository does not have. *)
Definition unknown_commit : index.gitChartIndexBuilder :=
  sample.builder [] [ sample.C1 ] io_EOF.

(** A commit whose tree has no base path. *)
Definition no_base_path : index.gitChartIndexBuilder :=
  sample.builder [ ("c1", []) ] [ sample.C1 ] io_EOF.

(** A repository without work tree (a bare repository). *)
Definition bare : index.gitChartIndexBuilder :=
  index.SetBasePath
    (index.NewGitChartIndexBuilder
       {| repo.AllCommits := ok {| object.pending := [ sample.C1 ];
                                   object.final := io_EOF |};
          repo.Worktree := failed "worktree not available in a bare repository" |})
    "charts".

(** A parser like [sample.parse] that also fills in a name. *)
Definition parse_named (b : string) : result chart.Metadata :=
  match sample.parse b with
  | ok md => ok {| chart.Name := "renamed";
                   chart.Version := chart.Version md;
                   chart.ApiVersion := "v2" |}
  | failed msg => failed msg
  end.

(** [sample.two_charts] with a stale entry left in the builder's map. *)
Definition stale_key : index.ChartNameVersion :=
  {| index.name := "gone"; index.version := "0.0.1" |}.

Definition stale_info : repo.CommitInfo :=
  {| repo.Time := 7; repo.Hash := "c0" |}.

Definition with_stale : index.gitChartIndexBuilder :=
  with_map sample.two_charts {[ stale_key := stale_info ]}.

End sample_more.

(** ** The index file as Helm keeps it *)

(** Helm's [repo.NewIndexFile] and [IndexFile.Add] are not among the
    sources.  Besides what [Build] hands them they record the time of
    the call: [NewIndexFile] as [Generated] of the index file, [Add] as
    [Created] of the new entry.  The clock is one more collaborator:
    [clock n] is what the [n]-th call of [time.Now] in a run returns,
    in seconds. *)
Module helmtime.

Record ChartVersion : Type := {
  entry : helmrepo.ChartVersion;
  Created : Z
}.

Record IndexFile : Type := {
  Generated : Z;
  Entries : list ChartVersion
}.




End helmtime.


(** *** Sample repositories with two versions of a chart *)
Module sample_rerun.

(** The tree with the one chart [foo] at 2.0.0. *)
Definition foo_2_0_0 : list (string * sample.node) :=
  [ ("charts", sample.dir [ {| billy.Name := "foo"; billy.IsDir := true |} ]);
    ("charts/foo", sample.dir [ {| billy.Name := "Chart.yaml"; billy.IsDir := false |} ]);
    ("charts/foo/Chart.yaml", sample.file "version: 2.0.0") ].

Definition foo_2 : index.ChartNameVersion :=
  {| index.name := "foo"; index.version := "2.0.0" |}.

(** [C1] holds [foo] at 1.0.0, [C2] holds [foo] at 2.0.0; then [Next]
    fails. *)
Definition two_versions : index.gitChartIndexBuilder :=
  sample.builder [ ("c1", sample.foo_1_0_0); ("c2", foo_2_0_0) ]
    [ sample.C1; sample.C2 ] (lib_error "object not found").

End sample_rerun.

(** ** The order of Go strings *)

Lemma ltb_lt a b : String.ltb a b = true ↔ String_as_OT.lt a b.
Proof.
  rewrite <- String_as_OT.cmp_lt. unfold String.ltb, String_as_OT.cmp.
  destruct (String.compare a b); split; congruence.
Qed.

Lemma ltb_trans a b c :
  String.ltb a b = true → String.ltb b c = true → String.ltb a c = true.
Proof. rewrite !ltb_lt. apply String_as_OT.lt_trans. Qed.

Lemma ltb_irrefl a : String.ltb a a = false.
Proof.
  destruct (String.ltb a a) eqn:E; [|done].
  apply ltb_lt, String_as_OT.lt_not_eq in E. by destruct E.
Qed.

Lemma ltb_asym a b : String.ltb a b = true → String.ltb b a = false.
Proof.
  intros H. destruct (String.ltb b a) eqn:E; [|done].
  pose proof (ltb_trans _ _ _ H E) as F. by rewrite ltb_irrefl in F.
Qed.

Lemma ltb_connex a b :
  String.ltb a b = false → String.ltb b a = false → a = b.
Proof.
  unfold String.ltb. rewrite (String.compare_antisym b a).
  destruct (String.compare a b) eqn:E; simpl; try done.
  intros _ _. by apply String.compare_eq_iff.
Qed.

(** ** The comparison function of [sort.Slice] *)

Lemma less_spec a b :
  index.less a b = true ↔
  String.ltb (index.name a) (index.name b) = true
  ∨ (index.name a = index.name b
     ∧ String.ltb (index.version a) (index.version b) = true).
Proof.
  unfold index.less.
  destruct (String.ltb (index.name a) (index.name b)) eqn:Hn.
  { split; [by left|done]. }
  destruct (String.eqb (index.name a) (index.name b)) eqn:He.
  - apply String.eqb_eq in He. split; [by right|].
    intros [?|[_ ?]]; [discriminate|done].
  - apply String.eqb_neq in He. split; [done|].
    intros [?|[? _]]; [discriminate|contradiction].
Qed.

Lemma less_irrefl a : index.less a a = false.
Proof.
  destruct (index.less a a) eqn:E; [|done].
  apply less_spec in E. rewrite !ltb_irrefl in E.
  destruct E as [?|[_ ?]]; discriminate.
Qed.

Lemma less_trans a b c :
  index.less a b = true → index.less b c = true → index.less a c = true.
Proof.
  rewrite !less_spec. intros [H1|[E1 H1]] [H2|[E2 H2]].
  - left. eauto using ltb_trans.
  - left. by rewrite <- E2.
  - left. by rewrite E1.
  - right. split; [congruence|eauto using ltb_trans].
Qed.

Lemma less_connex a b :
  index.less a b = false → index.less b a = false → a = b.
Proof.
  intros H1 H2.
  assert (index.name a = index.name b) as En.
  { apply ltb_connex.
    - destruct (String.ltb (index.name a) (index.name b)) eqn:E; [|done].
      rewrite <- H1. symmetry. apply less_spec. by left.
    - destruct (String.ltb (index.name b) (index.name a)) eqn:E; [|done].
      rewrite <- H2. symmetry. apply less_spec. by left. }
  assert (index.version a = index.version b) as Ev.
  { apply ltb_connex.
    - destruct (String.ltb (index.version a) (index.version b)) eqn:E; [|done].
      rewrite <- H1. symmetry. apply less_spec. by right.
    - destruct (String.ltb (index.version b) (index.version a)) eqn:E; [|done].
      rewrite <- H2. symmetry. apply less_spec. by right. }
  destruct a, b; simpl in *; congruence.
Qed.

Lemma less_asym a b : index.less a b = true → index.less b a = false.
Proof.
  intros H. destruct (index.less b a) eqn:E; [|done].
  pose proof (less_trans _ _ _ H E) as F. by rewrite less_irrefl in F.
Qed.

Lemma not_after_total : Total index.not_after.
Proof.
  intros a b. unfold index.not_after.
  destruct (index.less b a) eqn:E; [right; by apply less_asym|by left].
Qed.



(** Two distinct keys in sorted order are in the order of [less]. *)
Lemma not_after_less a b : index.not_after a b → a ≠ b → index.less a b = true.
Proof.
  unfold index.not_after. intros H Hne.
  destruct (index.less a b) eqn:E; [done|]. destruct Hne. by apply less_connex.
Qed.

(** ** [sort.Slice] *)

Lemma sort_Slice_Sorted s : Sorted index.not_after (index.sort_Slice s).
Proof. apply (@Sorted_merge_sort _ _ _ not_after_total). Qed.

Lemma sort_Slice_Permutation s : index.sort_Slice s ≡ₚ s.
Proof. apply merge_sort_Permutation. Qed.


Lemma Sorted_consecutive {A} (R : relation A) l i a b :
  Sorted R l → l !! i = Some a → l !! S i = Some b → R a b.
Proof.
  intros Hs. revert i. induction Hs as [|x l Hs IH Hhd]; intros i Ha Hb; [done|].
  destruct i as [|i]; simpl in *.
  - simplify_eq. destruct Hhd; simpl in *; by simplify_eq.
  - eauto.
Qed.

(** ** The derived index file *)

Lemma foldl_add_entry i l :
  foldl index.add_entry i l = i ++ (entry_of <$> l).
Proof.
  revert i. induction l as [|k l IH]; intros i; simpl.
  - by rewrite app_nil_r.
  - rewrite IH. unfold index.add_entry, helmrepo.Add, entry_of.
    by rewrite <- app_assoc.
Qed.

Lemma derive_IndexFile m :
  index.IndexFile (index.derive m)
  = entry_of <$> index.sort_Slice (index.range_keys m).
Proof. unfold index.derive. simpl. by rewrite foldl_add_entry. Qed.

Lemma elem_of_range_keys (m : gmap index.ChartNameVersion repo.CommitInfo) k :
  k ∈ index.range_keys m ↔ is_Some (m !! k).
Proof.
  unfold index.range_keys. rewrite list_elem_of_fmap. split.
  - intros [[k' v] [-> H]]. apply elem_of_map_to_list in H. by exists v.
  - intros [v H]. exists (k, v). split; [done|]. by apply elem_of_map_to_list.
Qed.

Lemma NoDup_range_keys (m : gmap index.ChartNameVersion repo.CommitInfo) :
  NoDup (index.range_keys m).
Proof. apply NoDup_fst_map_to_list. Qed.

(** The index file derived from a map follows the strict order of the
    keys: by [Name], then by [ApiVersion], where [Build] puts the
    version of the key. *)
Lemma derive_sorted_by_key m i e1 e2 :
  index.IndexFile (index.derive m) !! i = Some e1 →
  index.IndexFile (index.derive m) !! S i = Some e2 →
  String.ltb (chart.Name (helmrepo.Metadata e1))
             (chart.Name (helmrepo.Metadata e2)) = true
  ∨ (chart.Name (helmrepo.Metadata e1) = chart.Name (helmrepo.Metadata e2)
     ∧ String.ltb (chart.ApiVersion (helmrepo.Metadata e1))
                  (chart.ApiVersion (helmrepo.Metadata e2)) = true).
Proof.
  rewrite derive_IndexFile, !list_lookup_fmap. intros H1 H2.
  destruct (index.sort_Slice _ !! i) as [k1|] eqn:E1; [|done].
  destruct (index.sort_Slice _ !! S i) as [k2|] eqn:E2; [|done].
  simpl in H1, H2. simplify_eq.
  assert (index.less k1 k2 = true) as Hl.
  { apply not_after_less.
    - eapply Sorted_consecutive; [apply sort_Slice_Sorted|done..].
    - intros ->.
      assert (NoDup (index.sort_Slice (index.range_keys m))) as Hnd.
      { rewrite sort_Slice_Permutation. apply NoDup_range_keys. }
      pose proof (NoDup_lookup _ _ _ _ Hnd E1 E2). lia. }
  by apply less_spec in Hl.
Qed.

(** No entry of the index file derived from a map has a [Version]. *)
Lemma derive_no_Version m e :
  e ∈ index.IndexFile (index.derive m) →
  chart.GetVersion (helmrepo.Metadata e) = "".
Proof.
  rewrite derive_IndexFile. by intros (k & -> & _)%list_elem_of_fmap.
Qed.

(** The index file derived from a map has the entry of every key. *)
Lemma derive_has_entry (m : gmap index.ChartNameVersion repo.CommitInfo) k :
  is_Some (m !! k) → entry_of k ∈ index.IndexFile (index.derive m).
Proof.
  intros Hk. rewrite derive_IndexFile. apply list_elem_of_fmap.
  exists k. split; [done|].
  rewrite sort_Slice_Permutation. by apply elem_of_range_keys.
Qed.

(** ** Assignments to the map *)

Lemma apply_writes_app m ws1 ws2 :
  apply_writes m (ws1 ++ ws2) = apply_writes (apply_writes m ws1) ws2.
Proof. apply foldl_app. Qed.

Lemma lookup_apply_writes_snoc m ws k' v k :
  apply_writes m (ws ++ [(k', v)]) !! k
  = if decide (k' = k) then Some v else apply_writes m ws !! k.
Proof. rewrite apply_writes_app. simpl. apply lookup_insert. Qed.

Lemma lookup_apply_writes_notin m ws k :
  k ∉ ws.*1 → apply_writes m ws !! k = m !! k.
Proof.
  induction ws as [|[k' v] ws IH] using rev_ind; intros Hk; [done|].
  rewrite fmap_app, not_elem_of_app in Hk. destruct Hk as [Hk Hk'].
  rewrite lookup_apply_writes_snoc. case_decide as E; [|by apply IH].
  subst. destruct Hk'. simpl. by left.
Qed.

(** A key written at all has the value last written, whatever the map
    was before. *)
Lemma lookup_apply_writes_elem ws k :
  k ∈ ws.*1 → ∃ v, (k, v) ∈ ws ∧ ∀ m, apply_writes m ws !! k = Some v.
Proof.
  induction ws as [|[k' v] ws IH] using rev_ind; intros Hk.
  { by apply elem_of_nil in Hk. }
  destruct (decide (k' = k)) as [->|Hne].
  - exists v. split; [apply elem_of_app; right; by left|].
    intros m. rewrite lookup_apply_writes_snoc. by case_decide.
  - rewrite fmap_app, elem_of_app in Hk. destruct Hk as [Hk|Hk].
    + destruct (IH Hk) as (v' & Hin & Hv'). exists v'.
      split; [apply elem_of_app; by left|].
      intros m. rewrite lookup_apply_writes_snoc. by case_decide.
    + simpl in Hk. apply list_elem_of_singleton in Hk. congruence.
Qed.


Lemma writes_app U ib cs1 cs2 :
  writes U ib (cs1 ++ cs2) = writes U ib cs1 ++ writes U ib cs2.
Proof. unfold writes. apply bind_app. Qed.

Lemma writes_cons U ib c cs :
  writes U ib (c :: cs)
  = ((λ k, (k, info_of c)) <$> commit_keys U ib c) ++ writes U ib cs.
Proof. done. Qed.

Lemma elem_of_writes U ib cs k v :
  (k, v) ∈ writes U ib cs ↔
  ∃ c, c ∈ cs ∧ k ∈ commit_keys U ib c ∧ v = info_of c.
Proof.
  unfold writes. rewrite list_elem_of_bind. split.
  - intros (c & Hkv & Hc). apply list_elem_of_fmap in Hkv.
    destruct Hkv as (k' & [= -> ->] & Hk'). eauto.
  - intros (c & Hc & Hk & ->). exists c. split; [|done].
    apply list_elem_of_fmap. eauto.
Qed.

(** ** The metadata extractor *)

(** Every error of [getChartVersion] is an error of a collaborator, and
    comes with the empty version. *)
Lemma getChartVersion_error U fs chartPath v err :
  index.getChartVersion U fs chartPath = (v, Some err) →
  v = "" ∧ ∃ msg, err = lib_error msg.
Proof.
  unfold index.getChartVersion.
  destruct (billy.Lstat fs chartPath) as [chartDirInfo|msg].
  2: { intros [= <- <-]. eauto. }
  destruct (negb (billy.IsDir chartDirInfo)); [done|].
  destruct (billy.Open fs _) as [chartYamlFile|msg].
  2: { intros [= <- <-]. eauto. }
  destruct (billy.ReadAll chartYamlFile) as [b|msg].
  2: { intros [= <- <-]. eauto. }
  destruct (U b) as [chartYaml|msg]; [done|].
  intros [= <- <-]. eauto.
Qed.

(** A directory without a readable [Chart.yaml] gives the error of
    [Open]. *)
Lemma getChartVersion_missing_Chart_yaml U fs chartPath chartDirInfo msg :
  billy.Lstat fs chartPath = ok chartDirInfo →
  billy.IsDir chartDirInfo = true →
  billy.Open fs (billy.Join fs chartPath "Chart.yaml") = failed msg →
  index.getChartVersion U fs chartPath = ("", Some (lib_error msg)).
Proof. intros Hl Hd Ho. unfold index.getChartVersion. by rewrite Hl, Hd, Ho. Qed.

(** A chart file that does not parse gives the error of the parser. *)
Lemma getChartVersion_parse_error U fs chartPath chartDirInfo chartYamlFile b msg :
  billy.Lstat fs chartPath = ok chartDirInfo →
  billy.IsDir chartDirInfo = true →
  billy.Open fs (billy.Join fs chartPath "Chart.yaml") = ok chartYamlFile →
  billy.ReadAll chartYamlFile = ok b →
  U b = failed msg →
  index.getChartVersion U fs chartPath = ("", Some (lib_error msg)).
Proof.
  intros Hl Hd Ho Hr Hu. unfold index.getChartVersion.
  by rewrite Hl, Hd, Ho, Hr, Hu.
Qed.

Lemma key_of_Some U fs basePath entry k :
  key_of U fs basePath entry = Some k ↔
  billy.Name entry = index.name k ∧
  index.getChartVersion U fs (billy.Join fs basePath (billy.Name entry))
  = (index.version k, None).
Proof.
  unfold key_of.
  destruct (index.getChartVersion U fs _) as [v [err|]]; split.
  - done.
  - intros [_ [=]].
  - intros [= <-]. done.
  - intros [Hn [= ->]]. destruct k; simpl in *. by subst.
Qed.

(** ** The loop over the candidates of one commit *)

(** A candidate whose extraction gives an error ends the loop, and
    [Build], with that error. *)
Lemma range_entries_error U fs basePath c entry rest m v err :
  index.getChartVersion U fs (billy.Join fs basePath (billy.Name entry))
  = (v, Some err) →
  index.range_entries U fs basePath c (entry :: rest) m = inl err.
Proof.
  intros H. simpl. rewrite H.
  apply getChartVersion_error in H as [_ [msg ->]].
  by rewrite bool_decide_eq_true_2.
Qed.

Lemma range_entries_app_inr U fs basePath c es1 es2 m m1 :
  index.range_entries U fs basePath c es1 m = inr m1 →
  index.range_entries U fs basePath c (es1 ++ es2) m
  = index.range_entries U fs basePath c es2 m1.
Proof.
  revert m. induction es1 as [|entry es1 IH]; intros m; simpl.
  { by intros [= ->]. }
  destruct (index.getChartVersion U fs _) as [v [err|]]; [|by apply IH].
  case_bool_decide; [done|by apply IH].
Qed.

(** A pass without error makes one assignment for every candidate, in
    the order of the listing. *)
Lemma range_entries_inr U fs basePath c es m m' :
  index.range_entries U fs basePath c es m = inr m' →
  m' = apply_writes m ((λ k, (k, info_of c)) <$> omap (key_of U fs basePath) es).
Proof.
  revert m. induction es as [|entry es IH]; intros m; simpl.
  { by intros [= ->]. }
  unfold key_of at 1.
  destruct (index.getChartVersion U fs _) as [v [err|]] eqn:Hg.
  - apply getChartVersion_error in Hg as [_ [msg ->]].
    by rewrite bool_decide_eq_true_2.
  - intros H. by apply IH in H.
Qed.

(** ** One pass through the loop body *)

(** With a nil commit the body breaks, returns an error or panics: it
    never comes to the next pass. *)
Lemma iteration_nil_commit U ib err m m' :
  index.iteration U ib None err m ≠ index.Continue m'.
Proof.
  unfold index.iteration.
  destruct (_ && _); [done|].
  by destruct (repo.Worktree _).
Qed.

(** The body never ends [Build] with an index. *)
Lemma iteration_Exit U ib c err m o idx e :
  index.iteration U ib c err m = index.Exit o → o ≠ index.Return (Some idx) e.
Proof.
  unfold index.iteration.
  destruct (_ && _); [done|].
  destruct (repo.Worktree _) as [w|msg]; [|by intros [= <-]].
  destruct c as [c|]; [|by intros [= <-]].
  destruct (git.Checkout w _) as [fs|msg]; [|by intros [= <-]].
  destruct (billy.ReadDir fs _) as [entries|msg]; [|by intros [= <-]].
  destruct (index.range_entries U fs _ c entries m); [|done].
  by intros [= <-].
Qed.

Lemma iteration_commit_Continue U ib c m m' :
  index.iteration U ib (Some c) None m = index.Continue m' →
  m' = apply_writes m ((λ k, (k, info_of c)) <$> commit_keys U ib c).
Proof.
  unfold index.iteration, commit_keys. simpl.
  destruct (repo.Worktree _) as [w|msg]; [|done].
  destruct (git.Checkout w _) as [fs|msg]; [|done].
  destruct (billy.ReadDir fs _) as [entries|msg]; [|done].
  destruct (index.range_entries U fs _ c entries m) as [err|m''] eqn:Hr; [done|].
  intros [= <-]. by apply range_entries_inr in Hr.
Qed.

Lemma iteration_commit_Break U ib c m m' :
  index.iteration U ib (Some c) None m ≠ index.Break m'.
Proof.
  unfold index.iteration. simpl.
  destruct (repo.Worktree _) as [w|msg]; [|done].
  destruct (git.Checkout w _) as [fs|msg]; [|done].
  destruct (billy.ReadDir fs _) as [entries|msg]; [|done].
  by destruct (index.range_entries U fs _ c entries m).
Qed.

(** At the end of the commits the loop is left by [break] exactly when
    the final error is not [io.EOF]. *)
Lemma iteration_final_Break U ib final m m' :
  index.iteration U ib None (Some final) m = index.Break m' →
  final ≠ io_EOF ∧ m' = m.
Proof.
  unfold index.iteration.
  destruct (bool_decide (Some final ≠ None) && bool_decide (Some final ≠ Some io_EOF)) eqn:E.
  - intros [= <-]. apply andb_true_iff in E as [_ E].
    apply bool_decide_eq_true in E. split; [congruence|done].
  - by destruct (repo.Worktree _).
Qed.

Lemma iteration_final_error U ib final m :
  final ≠ io_EOF →
  index.iteration U ib None (Some final) m = index.Break m.
Proof.
  intros H. unfold index.iteration.
  rewrite bool_decide_eq_true_2 by done.
  rewrite bool_decide_eq_true_2 by congruence. done.
Qed.

Lemma iteration_final_EOF U ib m :
  index.iteration U ib None (Some io_EOF) m
  = match repo.Worktree (index.gitChartRepo ib) with
    | ok _ => index.Exit index.Panic
    | failed msg => index.Exit (index.Return None (Some (lib_error msg)))
    end.
Proof.
  unfold index.iteration.
  rewrite (bool_decide_eq_false_2 (Some io_EOF ≠ Some io_EOF)) by naive_solver.
  by rewrite andb_false_r.
Qed.



(** ** The walk *)

(** The loop of the model satisfies the equation of the Go loop:
    call [Next], run the body, and go round again unless the body left
    the loop. *)
Lemma for_loop_unfold U ib commitIter m :
  index.for_loop U ib commitIter m
  = let '((c, err), commitIter') := object.Next commitIter in
    match index.iteration U ib c err m with
    | index.Continue m' => index.for_loop U ib commitIter' m'
    | index.Break m' => inl m'
    | index.Exit o => inr o
    end.
Proof.
  destruct commitIter as [[|c rest] final]; unfold index.for_loop, object.Next; simpl.
  - destruct (index.iteration U ib None (Some final) m) as [m'| |] eqn:E; [|done..].
    by apply iteration_nil_commit in E.
  - done.
Qed.

Lemma walk_inl U ib cs final m m' :
  index.walk U ib cs final m = inl m' →
  final ≠ io_EOF ∧ m' = apply_writes m (writes U ib cs).
Proof.
  revert m. induction cs as [|c cs IH]; intros m; cbn [index.walk].
  - destruct (index.iteration U ib None (Some final) m) as [m1|m1|o] eqn:E.
    + by apply iteration_nil_commit in E.
    + intros [= <-]. by apply iteration_final_Break in E as [? ->].
    + done.
  - destruct (index.iteration U ib (Some c) None m) as [m1|m1|o] eqn:E.
    + intros H. apply IH in H as [Hf ->]. split; [done|].
      apply iteration_commit_Continue in E as ->.
      by rewrite writes_cons, apply_writes_app.
    + by apply iteration_commit_Break in E.
    + done.
Qed.

Lemma walk_inr U ib cs final m o idx e :
  index.walk U ib cs final m = inr o → o ≠ index.Return (Some idx) e.
Proof.
  revert m. induction cs as [|c cs IH]; intros m; simpl.
  - destruct (index.iteration U ib None (Some final) m) as [m1|m1|o'] eqn:E;
      [done..|].
    intros [= <-]. by eapply iteration_Exit.
  - destruct (index.iteration U ib (Some c) None m) as [m1|m1|o'] eqn:E;
      [by apply IH|done|].
    intros [= <-]. by eapply iteration_Exit.
Qed.


Lemma walk_visited U ib pre rest final m m1 :
  visited U ib pre m = Some m1 →
  index.walk U ib (pre ++ rest) final m = index.walk U ib rest final m1.
Proof.
  revert m. induction pre as [|c pre IH]; intros m; simpl.
  { by intros [= ->]. }
  destruct (index.iteration U ib (Some c) None m); [apply IH|done..].
Qed.

(** ** What a returned index is *)

(** [Build] returns an index only after leaving the loop by [break];
    the index is then derived from the map after all the assignments of
    the walk. *)
Lemma Build_index U ib idx e :
  index.Build U ib = index.Return (Some idx) e →
  e = None ∧
  ∃ it, repo.AllCommits (index.gitChartRepo ib) = ok it ∧
        object.final it ≠ io_EOF ∧
        idx = index.derive
                (apply_writes (index.versionCommitMap ib)
                              (writes U ib (object.pending it))).
Proof.
  unfold index.Build, index.for_loop.
  destruct (repo.AllCommits _) as [it|msg]; [|done].
  destruct (index.walk U ib _ _ _) as [m|o] eqn:Hw.
  - intros [= <- <-]. split; [done|]. exists it.
    apply walk_inl in Hw as [Hf ->]. done.
  - intros ->. by eapply walk_inr in Hw.
Qed.

(** When every commit is visited without error and [Next] then fails
    with an error other than [io.EOF], [Build] returns the index of the
    commits visited, with a nil error. *)
Lemma Build_Next_error U ib it m :
  repo.AllCommits (index.gitChartRepo ib) = ok it →
  object.final it ≠ io_EOF →
  visited U ib (object.pending it) (index.versionCommitMap ib) = Some m →
  index.Build U ib = index.Return (Some (index.derive m)) None.
Proof.
  intros Hit Hf Hv. unfold index.Build, index.for_loop. rewrite Hit.
  rewrite <- (app_nil_r (object.pending it)).
  rewrite (walk_visited _ _ _ _ _ _ _ Hv). cbn [index.walk].
  by rewrite iteration_final_error.
Qed.

(** When the history ends at [io.EOF], [Build] returns no index. *)
Lemma Build_EOF U ib it idx e :
  repo.AllCommits (index.gitChartRepo ib) = ok it →
  object.final it = io_EOF →
  index.Build U ib ≠ index.Return (Some idx) e.
Proof.
  intros Hit Hf HB. apply Build_index in HB as (_ & it' & Hit' & Hf' & _).
  congruence.
Qed.

Lemma declares_commit_keys U ib c k :
  declares U ib c k ↔ k ∈ commit_keys U ib c.
Proof.
  unfold declares, commit_keys. split.
  - intros (w & fs & entries & entry & -> & -> & -> & Hin & Hn & Hg).
    apply list_elem_of_omap. exists entry. split; [done|].
    by apply key_of_Some.
  - destruct (repo.Worktree _) as [w|msg]; [|by intros ?%elem_of_nil].
    destruct (git.Checkout w _) as [fs|msg] eqn:Hc; [|by intros ?%elem_of_nil].
    destruct (billy.ReadDir fs _) as [entries|msg] eqn:Hr;
      [|by intros ?%elem_of_nil].
    intros (entry & Hin & Hk)%list_elem_of_omap.
    apply key_of_Some in Hk as [Hn Hg]. by exists w, fs, entries, entry.
Qed.

(** ** The claims *)

(** *** Which commit a package is pinned to *)

(** C1, as the spec states it, fails.  [sample.earlier_first] walks
    [C1] (committed at 100) and then [C2] (committed at 200), both
    holding [foo] at 1.0.0: the index pins the package to [C2], the
    later commit, because every assignment overwrites the one before. *)
Lemma earliest_commit_wins_fails :
  ¬ earliest_commit_wins sample.parse sample.earlier_first.
Proof.
  intros H.
  assert (index.Build sample.parse sample.earlier_first
          = index.Return
              (Some (index.derive {[ sample.foo := info_of sample.C2 ]})) None)
    as HB by (vm_compute; reflexivity).
  specialize (H {| object.pending := [sample.C1; sample.C2];
                   object.final := lib_error "object not found" |}
                (index.derive {[ sample.foo := info_of sample.C2 ]})
                sample.C1 sample.C2 sample.foo eq_refl).
  specialize (H ltac:(by left) ltac:(right; by left) ltac:(reflexivity)).
  assert (declares sample.parse sample.earlier_first sample.C1 sample.foo) as D1.
  { apply declares_commit_keys. vm_compute. by left. }
  assert (declares sample.parse sample.earlier_first sample.C2 sample.foo) as D2.
  { apply declares_commit_keys. vm_compute. by left. }
  specialize (H D1 D2 HB). vm_compute in H. discriminate H.
Qed.

(** C1, amended: when [Build] returns an index, a package is pinned to
    the hash and the timestamp of the commit visited last among those
    that declare it, whatever the timestamps of the commits are.  Of
    two commits [C1] and [C2] declaring the package, the index holds
    [C1] when the walk visits [C1] after [C2] and no commit visited
    later declares the package.  The map holds one value per key, so
    this is the only entry for the package. *)
Theorem Build_pins_last_visited U ib it idx pre c post k :
  repo.AllCommits (index.gitChartRepo ib) = ok it →
  object.pending it = pre ++ c :: post →
  declares U ib c k →
  (∀ c', c' ∈ post → ¬ declares U ib c' k) →
  index.Build U ib = index.Return (Some idx) None →
  index.chartNameVersionToCommitMap idx !! k
  = Some {| repo.Time := object.Committer_When c;
            repo.Hash := object.Hash c |}.
Proof.
  intros Hit Hp Hc Hpost HB.
  apply Build_index in HB as (_ & it' & Hit' & _ & ->).
  assert (it' = it) as -> by congruence. simpl.
  rewrite Hp. change (c :: post) with ([c] ++ post).
  rewrite !writes_app, !apply_writes_app.
  rewrite lookup_apply_writes_notin.
  2: { intros (kv & Hk & Hin)%list_elem_of_fmap. destruct kv as [k' v].
       simpl in Hk. subst k'.
       apply elem_of_writes in Hin as (c' & Hc' & Hk' & _).
       apply (Hpost c' Hc'). by apply declares_commit_keys. }
  apply declares_commit_keys in Hc.
  destruct (lookup_apply_writes_elem (writes U ib [c]) k) as (v & Hv & Hl).
  { apply list_elem_of_fmap. exists (k, info_of c). split; [done|].
    apply elem_of_writes. exists c. split; [by left|done]. }
  rewrite Hl. apply elem_of_writes in Hv as (c' & Hc' & _ & ->).
  apply list_elem_of_singleton in Hc' as ->. done.
Qed.

Lemma Build_pins_last_visited_witness :
  index.chartNameVersionToCommitMap
    (index.derive {[ sample.foo := info_of sample.C1 ]}) !! sample.foo
  = Some {| repo.Time := 100; repo.Hash := "c1" |}.
Proof.
  apply (Build_pins_last_visited sample.parse sample.later_first
           {| object.pending := [sample.C2; sample.C1];
              object.final := lib_error "object not found" |}
           _ [sample.C2] sample.C1 [] sample.foo).
  - reflexivity.
  - reflexivity.
  - exists (sample.worktree_of [("c1", sample.foo_1_0_0); ("c2", sample.foo_1_0_0)]),
      (sample.fs_of sample.foo_1_0_0),
      [ {| billy.Name := "foo"; billy.IsDir := true |} ],
      {| billy.Name := "foo"; billy.IsDir := true |}.
    repeat split; try reflexivity. by left.
  - intros c' Hc'. by apply elem_of_nil in Hc'.
  - vm_compute. reflexivity.
Defined.

(** *** Errors during the walk *)

(** C2: the code does not meet the claim.  In [sample.next_fails] the
    iterator yields one commit and then fails with a repository error;
    [Build] leaves the loop by [break] and returns the index built so
    far together with a nil error. *)
Theorem Build_returns_index_after_Next_error :
  index.Build sample.parse sample.next_fails
  = index.Return
      (Some {| index.IndexFile := [ entry_of sample.foo ];
               index.chartNameVersionToCommitMap :=
                 {[ sample.foo := {| repo.Time := 100; repo.Hash := "c1" |} ]} |})
      None.
Proof. vm_compute. reflexivity. Qed.

(** The half of C2 the code does meet: a chart file that does not
    parse ends [Build] with the parser's error and no index. *)
Lemma Build_parse_error :
  index.Build sample.parse sample.unparsable
  = index.Return None (Some (lib_error "error unmarshaling chart file")).
Proof. vm_compute. reflexivity. Qed.

(** C3: the code does not meet the claim.  In
    [sample.missing_chart_yaml] the base path holds a directory without
    [Chart.yaml]; opening the file fails, [getChartVersion] returns
    that error, and [Build] returns it instead of going on to the next
    candidate. *)
Theorem Build_aborts_without_Chart_yaml :
  index.Build sample.parse sample.missing_chart_yaml
  = index.Return None (Some (lib_error "file does not exist")).
Proof. vm_compute. reflexivity. Qed.

(** C4: the code does not meet the claim.  In [sample.one_commit] the
    history has one commit; after it [Next] reports [io.EOF] with a nil
    commit, the loop body goes on, and reading [c.Hash] panics: [Build]
    never comes to derive the catalog. *)
Theorem Build_panics_at_end_of_history :
  index.Build sample.parse sample.one_commit = index.Panic.
Proof. vm_compute. reflexivity. Qed.

(** *** The catalog *)

(** C5: the code does not meet the claim.  In [sample_rerun.two_versions]
    the chart [foo] is at 1.0.0 in one commit and at 2.0.0 in the next.
    The two entries are emitted in the order of the keys, but [Build]
    writes the version of a key to [ApiVersion] and leaves [Version]
    empty: the two consecutive entries have the same name and the same,
    empty, version, so by name and version they are not strictly
    ordered. *)
Theorem catalog_versions_not_ordered :
  ∃ idx e1 e2,
    index.Build sample.parse sample_rerun.two_versions
    = index.Return (Some idx) None ∧
    index.IndexFile idx !! 0 = Some e1 ∧
    index.IndexFile idx !! 1 = Some e2 ∧
    chart.Name (helmrepo.Metadata e1) = chart.Name (helmrepo.Metadata e2) ∧
    chart.GetVersion (helmrepo.Metadata e1) = "" ∧
    chart.GetVersion (helmrepo.Metadata e2) = "" ∧
    ¬ entry_before e1 e2.
Proof.
  exists (index.derive {[ sample.foo := info_of sample.C1;
                          sample_rerun.foo_2 := info_of sample.C2 ]}),
    (entry_of sample.foo), (entry_of sample_rerun.foo_2).
  split; [vm_compute; reflexivity|].
  split; [vm_compute; reflexivity|].
  split; [vm_compute; reflexivity|].
  split; [reflexivity|]. split; [reflexivity|]. split; [reflexivity|].
  intros [H|[_ H]]; vm_compute in H; discriminate H.
Qed.

(** C6: the code does not meet the claim.  In [sample.two_charts] the
    map of the returned index has the key [foo] at 1.0.0, but no entry
    of the index file named [foo] declares the version 1.0.0: [Build]
    writes the version of the key to [ApiVersion] and leaves [Version],
    the field [GetVersion] reads, empty. *)
Theorem catalog_entry_lacks_declared_version :
  ∃ idx,
    index.Build sample.parse sample.two_charts
    = index.Return (Some idx) None ∧
    is_Some (index.chartNameVersionToCommitMap idx !! sample.foo) ∧
    ¬ ∃ e, e ∈ index.IndexFile idx ∧
           chart.Name (helmrepo.Metadata e) = "foo" ∧
           chart.GetVersion (helmrepo.Metadata e) = "1.0.0".
Proof.
  exists (index.derive {[ sample.foo := info_of sample.C1;
                          sample.bar := info_of sample.C1 ]}).
  split; [vm_compute; reflexivity|].
  split; [exists (info_of sample.C1); vm_compute; reflexivity|].
  intros (e & He & _ & Hv). apply derive_no_Version in He.
  rewrite He in Hv. discriminate Hv.
Qed.

(** C7, as the spec states it, fails.  For [sample.two_charts] the
    entries are emitted with the base URLs [/chart/bar/0.1.0] and
    [/chart/foo/1.0.0]; none is [/foo/1.0.0]. *)
Lemma download_path_is_name_version_fails :
  ¬ download_path_is_name_version sample.parse sample.two_charts.
Proof.
  intros H.
  destruct (H {| index.IndexFile := [ entry_of sample.bar; entry_of sample.foo ];
                 index.chartNameVersionToCommitMap :=
                   {[ sample.foo := info_of sample.C1;
                      sample.bar := info_of sample.C1 ]} |}
              sample.foo)
    as (e & Hin & _ & _ & Hurl).
  - vm_compute. reflexivity.
  - exists (info_of sample.C1). vm_compute. reflexivity.
  - apply elem_of_cons in Hin as [->|Hin]; [discriminate Hurl|].
    apply list_elem_of_singleton in Hin as ->. discriminate Hurl.
Qed.

(** C7, amended: for every key of the map of a returned index, the
    entry emitted for it carries the base URL made of [/chart/], the
    name, a slash and the version. *)
Theorem catalog_download_path U ib idx k :
  index.Build U ib = index.Return (Some idx) None →
  is_Some (index.chartNameVersionToCommitMap idx !! k) →
  ∃ e, e ∈ index.IndexFile idx ∧
       chart.Name (helmrepo.Metadata e) = index.name k ∧
       chart.ApiVersion (helmrepo.Metadata e) = index.version k ∧
       helmrepo.baseURL e = "/chart/" +:+ index.name k +:+ "/" +:+ index.version k.
Proof.
  intros HB Hk.
  apply Build_index in HB as (_ & it & _ & _ & ->).
  exists (entry_of k). split; [by apply derive_has_entry|done].
Qed.

Lemma catalog_download_path_witness :
  ∃ e, e ∈ [ entry_of sample.bar; entry_of sample.foo ] ∧
       chart.Name (helmrepo.Metadata e) = "foo" ∧
       chart.ApiVersion (helmrepo.Metadata e) = "1.0.0" ∧
       helmrepo.baseURL e = "/chart/foo/1.0.0".
Proof.
  apply (catalog_download_path sample.parse sample.two_charts
           {| index.IndexFile := [ entry_of sample.bar; entry_of sample.foo ];
              index.chartNameVersionToCommitMap :=
                {[ sample.foo := info_of sample.C1;
                   sample.bar := info_of sample.C1 ]} |}
           sample.foo).
  - vm_compute. reflexivity.
  - exists (info_of sample.C1). vm_compute. reflexivity.
Defined.

(** *** Running [Build] again *)







(** *** The sentinel error *)

(** C9: whatever the file system and the path, [getChartVersion] does
    not return [ErrChartNotFound]; so the loop over the candidates never
    skips one: when the walk comes to a candidate whose extraction
    gives an error, [Build] returns that error. *)
Theorem getChartVersion_never_ErrChartNotFound U :
  (∀ fs chartPath,
     (index.getChartVersion U fs chartPath).2 ≠ Some ErrChartNotFound)
  ∧ (∀ ib it pre c post w fs es1 entry es2 m1 m2 v err,
       repo.AllCommits (index.gitChartRepo ib) = ok it →
       object.pending it = pre ++ c :: post →
       visited U ib pre (index.versionCommitMap ib) = Some m1 →
       repo.Worktree (index.gitChartRepo ib) = ok w →
       git.Checkout w (object.Hash c) = ok fs →
       billy.ReadDir fs (index.basePath ib) = ok (es1 ++ entry :: es2) →
       index.range_entries U fs (index.basePath ib) c es1 m1 = inr m2 →
       index.getChartVersion U fs
         (billy.Join fs (index.basePath ib) (billy.Name entry)) = (v, Some err) →
       index.Build U ib = index.Return None (Some err)).
Proof.
  split.
  - intros fs chartPath.
    destruct (index.getChartVersion U fs chartPath) as [v [err|]] eqn:E; [|done].
    apply getChartVersion_error in E as [_ [msg ->]]. done.
  - intros ib it pre c post w fs es1 entry es2 m1 m2 v err
      Hit Hp Hvis Hw Hc Hr Hes1 Hg.
    unfold index.Build, index.for_loop. rewrite Hit, Hp.
    rewrite (walk_visited _ _ _ _ _ _ _ Hvis). cbn [index.walk].
    unfold index.iteration. simpl. rewrite Hw, Hc, Hr.
    rewrite (range_entries_app_inr _ _ _ _ _ _ _ _ Hes1).
    by rewrite (range_entries_error _ _ _ _ _ _ _ _ _ Hg).
Qed.

Lemma getChartVersion_never_ErrChartNotFound_witness :
  index.Build sample.parse sample.missing_chart_yaml
  = index.Return None (Some (lib_error "file does not exist")).
Proof.
  apply (proj2 (getChartVersion_never_ErrChartNotFound sample.parse)
           sample.missing_chart_yaml
           {| object.pending := [sample.C1]; object.final := io_EOF |}
           [] sample.C1 []
           (sample.worktree_of [("c1", sample.docs_only)])
           (sample.fs_of sample.docs_only)
           [] {| billy.Name := "docs"; billy.IsDir := true |} []
           ∅ ∅ "").
  all: reflexivity.
Defined.

(** *** Candidates that are not directories *)



(** ** Further properties of the builder *)

(** *** Supporting facts *)

Lemma range_entries_inl U fs basePath c es m err :
  index.range_entries U fs basePath c es m = inl err →
  ∃ msg, err = lib_error msg.
Proof.
  revert m. induction es as [|entry es IH]; intros m; simpl; [done|].
  destruct (index.getChartVersion U fs _) as [v [err'|]] eqn:Hg; [|by apply IH].
  apply getChartVersion_error in Hg as [_ [msg ->]].
  rewrite bool_decide_eq_true_2 by done. intros [= <-]. eauto.
Qed.

Lemma range_entries_inr_iff U fs basePath c es m :
  (∃ m', index.range_entries U fs basePath c es m = inr m') ↔
  ∀ entry, entry ∈ es →
    (index.getChartVersion U fs (billy.Join fs basePath (billy.Name entry))).2
    = None.
Proof.
  revert m. induction es as [|entry es IH]; intros m; simpl.
  { split; [by intros _ ? ?%elem_of_nil|eauto]. }
  destruct (index.getChartVersion U fs (billy.Join fs basePath (billy.Name entry)))
    as [v [err|]] eqn:Hg.
  - apply getChartVersion_error in Hg as Hs. destruct Hs as [_ [msg ->]].
    rewrite bool_decide_eq_true_2 by done. split; [by intros [? ?]|].
    intros H. specialize (H entry ltac:(by left)). by rewrite Hg in H.
  - rewrite IH. split.
    + intros H e [->|He]%elem_of_cons; [by rewrite Hg|by apply H].
    + intros H e He. apply H. by right.
Qed.

Lemma iteration_Exit_shape U ib c err m o :
  index.iteration U ib c err m = index.Exit o →
  o = index.Panic ∨ ∃ msg, o = index.Return None (Some (lib_error msg)).
Proof.
  unfold index.iteration.
  destruct (_ && _); [done|].
  destruct (repo.Worktree _) as [w|msg]; [|intros [= <-]; eauto].
  destruct c as [c|]; [|intros [= <-]; eauto].
  destruct (git.Checkout w _) as [fs|msg]; [|intros [= <-]; eauto].
  destruct (billy.ReadDir fs _) as [entries|msg]; [|intros [= <-]; eauto].
  destruct (index.range_entries U fs _ c entries m) as [e|m'] eqn:Hr; [|done].
  intros [= <-]. apply range_entries_inl in Hr as [msg ->]. eauto.
Qed.

Lemma iteration_commit_no_Panic U ib c m :
  index.iteration U ib (Some c) None m ≠ index.Exit index.Panic.
Proof.
  unfold index.iteration. simpl.
  destruct (repo.Worktree _) as [w|msg]; [|done].
  destruct (git.Checkout w _) as [fs|msg]; [|done].
  destruct (billy.ReadDir fs _) as [entries|msg]; [|done].
  by destruct (index.range_entries U fs _ c entries m).
Qed.

Lemma iteration_Continue_iff U ib c m :
  (∃ m', index.iteration U ib (Some c) None m = index.Continue m') ↔
  readable U ib c.
Proof.
  unfold index.iteration, readable. simpl.
  destruct (repo.Worktree _) as [w|msg].
  2: { split; [by intros [? ?]|by intros (? & ? & ? & ? & _)]. }
  destruct (git.Checkout w _) as [fs|msg] eqn:Hc.
  2: { split; [by intros [? ?]|].
       intros (w' & ? & ? & [= <-] & Hc' & _). congruence. }
  destruct (billy.ReadDir fs _) as [entries|msg] eqn:Hr.
  2: { split; [by intros [? ?]|].
       intros (w' & fs' & ? & [= <-] & Hc' & Hr' & _). congruence. }
  split.
  - intros [m' H]. exists w, fs, entries. repeat split; try done.
    apply (range_entries_inr_iff U fs (index.basePath ib) c entries m).
    destruct (index.range_entries U fs _ c entries m); [done|eauto].
  - intros (w' & fs' & entries' & [= <-] & Hc' & Hr' & H).
    assert (fs' = fs) as -> by congruence.
    assert (entries' = entries) as -> by congruence.
    apply (range_entries_inr_iff U fs (index.basePath ib) c entries m) in H
      as [m' ->]. eauto.
Qed.

Lemma visited_Some_iff U ib cs m :
  is_Some (visited U ib cs m) ↔ ∀ c, c ∈ cs → readable U ib c.
Proof.
  revert m. induction cs as [|c cs IH]; intros m; simpl.
  { split; [by intros _ ? ?%elem_of_nil|eauto]. }
  destruct (index.iteration U ib (Some c) None m) as [m1|m1|o] eqn:E.
  - rewrite IH. split.
    + intros H c' [->|Hc']%elem_of_cons; [|by apply H].
      apply (iteration_Continue_iff U ib c m). eauto.
    + intros H c' Hc'. apply H. by right.
  - by apply iteration_commit_Break in E.
  - split; [by intros [? ?]|]. intros H.
    specialize (H c ltac:(by left)).
    apply (iteration_Continue_iff U ib c m) in H as [m' H]. congruence.
Qed.


Lemma walk_inl_iff U ib cs final m m' :
  index.walk U ib cs final m = inl m' ↔
  final ≠ io_EOF ∧ visited U ib cs m = Some m'.
Proof.
  revert m. induction cs as [|c cs IH]; intros m; cbn [index.walk visited].
  - destruct (index.iteration U ib None (Some final) m) as [m1|m1|o] eqn:E.
    + by apply iteration_nil_commit in E.
    + apply iteration_final_Break in E as [Hf ->]. split.
      * by intros [= ->].
      * by intros [_ [= ->]].
    + split; [done|]. intros [Hf _].
      by rewrite iteration_final_error in E.
  - destruct (index.iteration U ib (Some c) None m) as [m1|m1|o] eqn:E.
    + apply IH.
    + by apply iteration_commit_Break in E.
    + split; [done|by intros [_ ?]].
Qed.

Lemma walk_Panic_iff U ib cs final m :
  index.walk U ib cs final m = inr index.Panic ↔
  final = io_EOF ∧ (∃ w, repo.Worktree (index.gitChartRepo ib) = ok w)
  ∧ is_Some (visited U ib cs m).
Proof.
  revert m. induction cs as [|c cs IH]; intros m; cbn [index.walk visited].
  - destruct (decide (final = io_EOF)) as [->|Hf].
    + rewrite iteration_final_EOF.
      destruct (repo.Worktree _) as [w|msg]; split.
      * intros _. eauto.
      * done.
      * done.
      * by intros (_ & [w ?] & _).
    + rewrite iteration_final_error by done. split; [done|by intros [? _]].
  - destruct (index.iteration U ib (Some c) None m) as [m1|m1|o] eqn:E.
    + apply IH.
    + by apply iteration_commit_Break in E.
    + split.
      * intros [= ->]. by apply iteration_commit_no_Panic in E.
      * by intros (_ & _ & [? ?]).
Qed.

Lemma walk_inr_shape U ib cs final m o :
  index.walk U ib cs final m = inr o →
  o = index.Panic ∨ ∃ msg, o = index.Return None (Some (lib_error msg)).
Proof.
  revert m. induction cs as [|c cs IH]; intros m; cbn [index.walk].
  - destruct (index.iteration U ib None (Some final) m) as [m1|m1|o'] eqn:E;
      [done..|].
    intros [= <-]. by eapply iteration_Exit_shape.
  - destruct (index.iteration U ib (Some c) None m) as [m1|m1|o'] eqn:E;
      [by apply IH|done|].
    intros [= <-]. by eapply iteration_Exit_shape.
Qed.


Lemma entry_of_inj k1 k2 : entry_of k1 = entry_of k2 → k1 = k2.
Proof.
  intros H.
  assert (index.name k1 = index.name k2) by
    exact (f_equal (λ e, chart.Name (helmrepo.Metadata e)) H).
  assert (index.version k1 = index.version k2) by
    exact (f_equal (λ e, chart.ApiVersion (helmrepo.Metadata e)) H).
  destruct k1, k2; simpl in *; congruence.
Qed.

(** Where the value of a key in the map after the walk comes from. *)
Lemma lookup_walk_origin U ib cs m k v :
  apply_writes m (writes U ib cs) !! k = Some v →
  (∃ c, c ∈ cs ∧ declares U ib c k ∧ v = info_of c)
  ∨ (m !! k = Some v ∧ ∀ c, c ∈ cs → ¬ declares U ib c k).
Proof.
  intros Hl. destruct (decide (k ∈ (writes U ib cs).*1)) as [Hk|Hk].
  - left. destruct (lookup_apply_writes_elem _ _ Hk) as (v' & Hin & Hv').
    rewrite Hv' in Hl. injection Hl as ->.
    apply elem_of_writes in Hin as (c & Hc & Hkc & ->).
    exists c. split; [done|]. split; [by apply declares_commit_keys|done].
  - right. rewrite lookup_apply_writes_notin in Hl by done. split; [done|].
    intros c Hc Hd. apply Hk. apply list_elem_of_fmap.
    exists (k, info_of c). split; [done|]. apply elem_of_writes.
    exists c. split; [done|]. split; [by apply declares_commit_keys|done].
Qed.

Lemma lookup_walk_declared U ib cs m k c :
  c ∈ cs → declares U ib c k →
  is_Some (apply_writes m (writes U ib cs) !! k).
Proof.
  intros Hc Hd.
  destruct (lookup_apply_writes_elem (writes U ib cs) k) as (v & _ & Hv).
  - apply list_elem_of_fmap. exists (k, info_of c). split; [done|].
    apply elem_of_writes. exists c. split; [done|].
    split; [by apply declares_commit_keys|done].
  - by rewrite Hv.
Qed.

Lemma lookup_walk_undeclared U ib cs m k :
  (∀ c, c ∈ cs → ¬ declares U ib c k) →
  apply_writes m (writes U ib cs) !! k = m !! k.
Proof.
  intros H. apply lookup_apply_writes_notin.
  intros (kv & Hk & Hin)%list_elem_of_fmap. destruct kv as [k' v].
  simpl in Hk. subst k'. apply elem_of_writes in Hin as (c & Hc & Hkc & _).
  apply (H c Hc). by apply declares_commit_keys.
Qed.

(** *** The map of a returned index *)

(** X1: every entry of the map of a returned index is pinned to a
    commit of the walk that declares the package, with the hash and the
    timestamp of that commit; or it was in the builder's map before the
    run, with the same value, and no commit of the walk declares it. *)
Theorem index_entry_origin U ib it idx k v :
  repo.AllCommits (index.gitChartRepo ib) = ok it →
  index.Build U ib = index.Return (Some idx) None →
  index.chartNameVersionToCommitMap idx !! k = Some v →
  (∃ c, c ∈ object.pending it ∧ declares U ib c k ∧
        v = {| repo.Time := object.Committer_When c;
               repo.Hash := object.Hash c |})
  ∨ (index.versionCommitMap ib !! k = Some v ∧
     ∀ c, c ∈ object.pending it → ¬ declares U ib c k).
Proof.
  intros Hit HB Hl.
  apply Build_index in HB as (_ & it' & Hit' & _ & ->).
  assert (it' = it) as -> by congruence.
  by apply lookup_walk_origin.
Qed.

Lemma index_entry_origin_witness :
  (∃ c, c ∈ [sample.C1; sample.C2] ∧
        declares sample.parse sample.earlier_first c sample.foo ∧
        {| repo.Time := 200; repo.Hash := "c2" |}
        = {| repo.Time := object.Committer_When c;
             repo.Hash := object.Hash c |})
  ∨ (index.versionCommitMap sample.earlier_first !! sample.foo
     = Some {| repo.Time := 200; repo.Hash := "c2" |} ∧
     ∀ c, c ∈ [sample.C1; sample.C2] →
          ¬ declares sample.parse sample.earlier_first c sample.foo).
Proof.
  assert (index.Build sample.parse sample.earlier_first
          = index.Return
              (Some (index.derive {[ sample.foo := info_of sample.C2 ]})) None)
    as HB by (vm_compute; reflexivity).
  exact (index_entry_origin sample.parse sample.earlier_first
           {| object.pending := [sample.C1; sample.C2];
              object.final := lib_error "object not found" |}
           _ sample.foo {| repo.Time := 200; repo.Hash := "c2" |}
           eq_refl HB ltac:(vm_compute; reflexivity)).
Defined.

(** X2: a builder made by [NewGitChartIndexBuilder] and given its base
    path by [SetBasePath] starts from the empty map, so every entry of
    the index it builds is pinned to a commit of the walk that declares
    the package. *)
Theorem fresh_index_only_declared U r basePath it idx k v :
  repo.AllCommits r = ok it →
  index.Build U (index.SetBasePath (index.NewGitChartIndexBuilder r) basePath)
  = index.Return (Some idx) None →
  index.chartNameVersionToCommitMap idx !! k = Some v →
  ∃ c, c ∈ object.pending it ∧
       declares U (index.SetBasePath (index.NewGitChartIndexBuilder r) basePath) c k ∧
       v = {| repo.Time := object.Committer_When c;
              repo.Hash := object.Hash c |}.
Proof.
  intros Hit HB Hl.
  apply Build_index in HB as (_ & it' & Hit' & _ & ->).
  simpl in Hit'. assert (it' = it) as -> by congruence.
  apply lookup_walk_origin in Hl as [H|[H _]]; [done|].
  simpl in H. by rewrite lookup_empty in H.
Qed.

Lemma fresh_index_only_declared_witness :
  ∃ c, c ∈ [sample.C1] ∧
       declares sample.parse sample.two_charts c sample.bar ∧
       {| repo.Time := 100; repo.Hash := "c1" |}
       = {| repo.Time := object.Committer_When c;
            repo.Hash := object.Hash c |}.
Proof.
  assert (index.Build sample.parse sample.two_charts
          = index.Return
              (Some (index.derive {[ sample.foo := info_of sample.C1;
                                     sample.bar := info_of sample.C1 ]})) None)
    as HB by (vm_compute; reflexivity).
  exact (fresh_index_only_declared sample.parse
           {| repo.AllCommits :=
                ok {| object.pending := [sample.C1];
                      object.final := lib_error "object not found" |};
              repo.Worktree := ok (sample.worktree_of [("c1", sample.bar_and_foo)]) |}
           "charts"
           {| object.pending := [sample.C1];
              object.final := lib_error "object not found" |}
           _ sample.bar {| repo.Time := 100; repo.Hash := "c1" |}
           eq_refl HB ltac:(vm_compute; reflexivity)).
Defined.

(** X3: the keys of the map of a returned index are the keys the
    builder's map had before the run together with the packages
    declared by the commits of the walk. *)
Theorem index_keys U ib it idx k :
  repo.AllCommits (index.gitChartRepo ib) = ok it →
  index.Build U ib = index.Return (Some idx) None →
  (is_Some (index.chartNameVersionToCommitMap idx !! k) ↔
   is_Some (index.versionCommitMap ib !! k)
   ∨ ∃ c, c ∈ object.pending it ∧ declares U ib c k).
Proof.
  intros Hit HB.
  apply Build_index in HB as (_ & it' & Hit' & _ & ->).
  assert (it' = it) as -> by congruence. simpl. split.
  - intros [v Hv]. apply lookup_walk_origin in Hv as [(c & ? & ? & _)|[? _]];
      eauto.
  - intros [Hm|(c & Hc & Hd)]; [|by eapply lookup_walk_declared].
    destruct (decide (k ∈ (writes U ib (object.pending it)).*1)) as [Hk|Hk].
    + destruct (lookup_apply_writes_elem _ _ Hk) as (v & _ & Hv).
      by rewrite Hv.
    + by rewrite lookup_apply_writes_notin.
Qed.

Lemma index_keys_witness :
  is_Some ((index.derive {[ sample.foo := info_of sample.C1;
                            sample.bar := info_of sample.C1 ]}).(index.chartNameVersionToCommitMap)
           !! sample.bar).
Proof.
  assert (index.Build sample.parse sample.two_charts
          = index.Return
              (Some (index.derive {[ sample.foo := info_of sample.C1;
                                     sample.bar := info_of sample.C1 ]})) None)
    as HB by (vm_compute; reflexivity).
  apply (proj2 (index_keys sample.parse sample.two_charts
                  {| object.pending := [sample.C1];
                     object.final := lib_error "object not found" |}
                  _ sample.bar eq_refl HB)).
  right. exists sample.C1. split; [by left|].
  apply declares_commit_keys. vm_compute. right. by left.
Defined.

(** X4: [Build] deletes nothing and touches only what the walk
    declares: a key that no commit of the walk declares has in the
    returned index what it had in the builder's map before the run, so
    an entry left by an earlier run stays. *)
Theorem stale_entries_persist U ib it idx k :
  repo.AllCommits (index.gitChartRepo ib) = ok it →
  index.Build U ib = index.Return (Some idx) None →
  (∀ c, c ∈ object.pending it → ¬ declares U ib c k) →
  index.chartNameVersionToCommitMap idx !! k = index.versionCommitMap ib !! k.
Proof.
  intros Hit HB Hk.
  apply Build_index in HB as (_ & it' & Hit' & _ & ->).
  assert (it' = it) as -> by congruence. simpl.
  by apply lookup_walk_undeclared.
Qed.

Lemma stale_entries_persist_witness :
  index.chartNameVersionToCommitMap
    (index.derive {[ sample.foo := info_of sample.C1;
                     sample.bar := info_of sample.C1;
                     sample_more.stale_key := sample_more.stale_info ]})
    !! sample_more.stale_key
  = index.versionCommitMap sample_more.with_stale !! sample_more.stale_key.
Proof.
  assert (index.Build sample.parse sample_more.with_stale
          = index.Return
              (Some (index.derive {[ sample.foo := info_of sample.C1;
                                     sample.bar := info_of sample.C1;
                                     sample_more.stale_key := sample_more.stale_info ]}))
              None)
    as HB by (vm_compute; reflexivity).
  apply (stale_entries_persist sample.parse sample_more.with_stale
           {| object.pending := [sample.C1];
              object.final := lib_error "object not found" |}
           _ sample_more.stale_key eq_refl HB).
  intros c Hc Hd. apply list_elem_of_singleton in Hc as ->.
  apply declares_commit_keys in Hd. vm_compute in Hd.
  apply elem_of_cons in Hd as [Hd|Hd]; [discriminate Hd|].
  apply list_elem_of_singleton in Hd. discriminate Hd.
Defined.

(** *** The index file of a returned index *)

(** X5: the entries of the index file are exactly the entries made for
    the keys of the map: each has the name of its key, no [Version],
    the version of the key as [ApiVersion], the file name [chart.tgz],
    the base URL under [/chart/] and the digest [deadbeef]; nothing
    else is in the index file. *)
Theorem catalog_entries U ib idx e :
  index.Build U ib = index.Return (Some idx) None →
  (e ∈ index.IndexFile idx ↔
   ∃ k, is_Some (index.chartNameVersionToCommitMap idx !! k) ∧
        e = {| helmrepo.Metadata :=
                 {| chart.Name := index.name k;
                    chart.Version := "";
                    chart.ApiVersion := index.version k |};
               helmrepo.filename := "chart.tgz";
               helmrepo.baseURL :=
                 "/chart/" +:+ index.name k +:+ "/" +:+ index.version k;
               helmrepo.Digest := "deadbeef" |}).
Proof.
  intros HB. apply Build_index in HB as (_ & it & _ & _ & ->).
  rewrite derive_IndexFile, list_elem_of_fmap. simpl.
  split; intros (k & H1 & H2).
  - exists k. split; [|done].
    rewrite sort_Slice_Permutation in H2. by apply elem_of_range_keys.
  - exists k. split; [done|].
    rewrite sort_Slice_Permutation. by apply elem_of_range_keys.
Qed.

Lemma catalog_entries_witness :
  entry_of sample.foo ∈ [ entry_of sample.bar; entry_of sample.foo ].
Proof.
  assert (index.Build sample.parse sample.two_charts
          = index.Return
              (Some {| index.IndexFile := [ entry_of sample.bar; entry_of sample.foo ];
                       index.chartNameVersionToCommitMap :=
                         {[ sample.foo := info_of sample.C1;
                            sample.bar := info_of sample.C1 ]} |})
              None) as HB by (vm_compute; reflexivity).
  apply (proj2 (catalog_entries sample.parse sample.two_charts _
                  (entry_of sample.foo) HB)).
  exists sample.foo. split; [|reflexivity].
  exists (info_of sample.C1). vm_compute. reflexivity.
Defined.

(** X6: the index file has one entry for every key of the map and no
    entry twice. *)
Theorem catalog_one_entry_per_key U ib idx :
  index.Build U ib = index.Return (Some idx) None →
  length (index.IndexFile idx) = size (index.chartNameVersionToCommitMap idx)
  ∧ NoDup (index.IndexFile idx).
Proof.
  intros HB. apply Build_index in HB as (_ & it & _ & _ & ->).
  rewrite derive_IndexFile. simpl. split.
  - rewrite length_fmap, sort_Slice_Permutation.
    unfold index.range_keys. by rewrite length_fmap, length_map_to_list.
  - apply NoDup_fmap_2; [intros ? ?; apply entry_of_inj|].
    rewrite sort_Slice_Permutation. apply NoDup_range_keys.
Qed.

Lemma catalog_one_entry_per_key_witness :
  length [ entry_of sample.bar; entry_of sample.foo ]
  = size ({[ sample.foo := info_of sample.C1; sample.bar := info_of sample.C1 ]}
          : gmap index.ChartNameVersion repo.CommitInfo)
  ∧ NoDup [ entry_of sample.bar; entry_of sample.foo ].
Proof.
  assert (index.Build sample.parse sample.two_charts
          = index.Return
              (Some {| index.IndexFile := [ entry_of sample.bar; entry_of sample.foo ];
                       index.chartNameVersionToCommitMap :=
                         {[ sample.foo := info_of sample.C1;
                            sample.bar := info_of sample.C1 ]} |})
              None) as HB by (vm_compute; reflexivity).
  exact (catalog_one_entry_per_key sample.parse sample.two_charts _ HB).
Defined.



(** *** How [Build] ends *)

(** X8: [Build] returns an index with a nil error, or no index with an
    error; the error is then the one made for a failed [AllCommits] or
    an error of a collaborator, never [io.EOF] nor [ErrChartNotFound]. *)
Theorem Build_outcome_shape U ib file err :
  index.Build U ib = index.Return file err →
  (∃ idx, file = Some idx ∧ err = None)
  ∨ (file = None ∧
     ∃ msg, err = Some (lib_error msg)
            ∨ err = Some (fmt_Errorf
                            ("Initialize(): error getting commit iterator: " +:+ msg))).
Proof.
  unfold index.Build, index.for_loop.
  destruct (repo.AllCommits _) as [it|msg].
  - destruct (index.walk U ib _ _ _) as [m|o] eqn:Hw.
    + intros [= <- <-]. left. eauto.
    + intros ->. apply walk_inr_shape in Hw as [[=]|[msg [= -> ->]]].
      right. split; [done|]. exists msg. by left.
  - intros [= <- <-]. right. split; [done|]. exists msg. by right.
Qed.

Lemma Build_outcome_shape_witness :
  (∃ idx, (None : option index.Index) = Some idx
          ∧ Some (lib_error "file does not exist") = None)
  ∨ ((None : option index.Index) = None ∧
     ∃ msg, Some (lib_error "file does not exist") = Some (lib_error msg)
            ∨ Some (lib_error "file does not exist")
              = Some (fmt_Errorf
                        ("Initialize(): error getting commit iterator: " +:+ msg))).
Proof.
  apply (Build_outcome_shape sample.parse sample.missing_chart_yaml).
  vm_compute. reflexivity.
Defined.

(** X9: [Build] returns an index exactly when the commit iterator is
    obtained, every commit it yields is readable, and [Next] then
    fails with an error other than [io.EOF]. *)
Theorem Build_returns_index_iff U ib :
  (∃ idx, index.Build U ib = index.Return (Some idx) None) ↔
  ∃ it, repo.AllCommits (index.gitChartRepo ib) = ok it ∧
        object.final it ≠ io_EOF ∧
        ∀ c, c ∈ object.pending it → readable U ib c.
Proof.
  split.
  - intros [idx HB]. unfold index.Build, index.for_loop in HB.
    destruct (repo.AllCommits _) as [it|msg]; [|done].
    destruct (index.walk U ib _ _ _) as [m|o] eqn:Hw.
    + apply walk_inl_iff in Hw as [Hf Hv]. exists it.
      split; [done|]. split; [done|].
      apply (visited_Some_iff U ib _ (index.versionCommitMap ib)). eauto.
    + subst o. by eapply walk_inr in Hw.
  - intros (it & Hit & Hf & Hr).
    apply (visited_Some_iff U ib _ (index.versionCommitMap ib)) in Hr as [m Hm].
    exists (index.derive m). by eapply Build_Next_error.
Qed.

Lemma Build_returns_index_iff_witness :
  ∃ idx, index.Build sample.parse sample.next_fails
         = index.Return (Some idx) None.
Proof.
  apply (proj2 (Build_returns_index_iff sample.parse sample.next_fails)).
  exists {| object.pending := [sample.C1];
            object.final := lib_error "object not found" |}.
  split; [reflexivity|]. split; [discriminate|].
  intros c Hc. apply list_elem_of_singleton in Hc as ->.
  exists (sample.worktree_of [("c1", sample.foo_1_0_0)]),
    (sample.fs_of sample.foo_1_0_0),
    [ {| billy.Name := "foo"; billy.IsDir := true |} ].
  repeat split; try reflexivity.
  intros entry He. apply list_elem_of_singleton in He as ->. reflexivity.
Defined.

(** X10: [Build] panics exactly when the commit iterator is obtained,
    the work tree is there, every commit is readable, and [Next] then
    reports [io.EOF]: that is, whenever a readable history is walked to
    its natural end. *)
Theorem Build_panics_iff U ib :
  index.Build U ib = index.Panic ↔
  ∃ it w, repo.AllCommits (index.gitChartRepo ib) = ok it ∧
          repo.Worktree (index.gitChartRepo ib) = ok w ∧
          object.final it = io_EOF ∧
          ∀ c, c ∈ object.pending it → readable U ib c.
Proof.
  unfold index.Build, index.for_loop.
  destruct (repo.AllCommits _) as [it|msg].
  2: { split; [done|]. by intros (? & ? & ? & _). }
  destruct (index.walk U ib _ _ _) as [m|o] eqn:Hw.
  - split; [done|]. intros (it' & w & [= <-] & _ & Hf & _).
    by apply walk_inl_iff in Hw as [? _].
  - split.
    + intros ->. apply walk_Panic_iff in Hw as (Hf & [w Hw] & Hv).
      exists it, w. repeat split; try done.
      by apply (visited_Some_iff U ib _ (index.versionCommitMap ib)).
    + intros (it' & w & [= <-] & Hwt & Hf & Hr).
      assert (index.walk U ib (object.pending it) (object.final it)
                (index.versionCommitMap ib) = inr index.Panic) as Hp.
      { apply walk_Panic_iff. split; [done|]. split; [eauto|].
        by apply visited_Some_iff. }
      congruence.
Qed.

Lemma Build_panics_iff_witness :
  index.Build sample.parse sample.empty_history = index.Panic.
Proof.
  apply (proj2 (Build_panics_iff sample.parse sample.empty_history)).
  exists {| object.pending := []; object.final := io_EOF |},
    (sample.worktree_of []).
  repeat split; try reflexivity.
  intros c Hc. by apply elem_of_nil in Hc.
Defined.

(** *** Errors of the repository *)

(** X11: without a work tree [Build] returns the error of [Worktree]
    and no index, as soon as the loop body runs: when the history has a
    commit, or when it has none and [Next] reports [io.EOF]. *)
Theorem Build_Worktree_error U ib it msg :
  repo.AllCommits (index.gitChartRepo ib) = ok it →
  repo.Worktree (index.gitChartRepo ib) = failed msg →
  object.pending it ≠ [] ∨ object.final it = io_EOF →
  index.Build U ib = index.Return None (Some (lib_error msg)).
Proof.
  intros Hit Hw Hrun. unfold index.Build, index.for_loop. rewrite Hit.
  destruct (object.pending it) as [|c cs]; cbn [index.walk].
  - destruct Hrun as [? | ->]; [done|]. by rewrite iteration_final_EOF, Hw.
  - unfold index.iteration. simpl. by rewrite Hw.
Qed.

Lemma Build_Worktree_error_witness :
  index.Build sample.parse sample_more.bare
  = index.Return None
      (Some (lib_error "worktree not available in a bare repository")).
Proof.
  apply (Build_Worktree_error sample.parse sample_more.bare
           {| object.pending := [sample.C1]; object.final := io_EOF |}).
  - reflexivity.
  - reflexivity.
  - left. discriminate.
Defined.

(** X12: when the commits before [c] are readable and [c] cannot be
    checked out, [Build] returns the error of [Checkout] and no index,
    whatever the commits after [c] are. *)
Theorem Build_Checkout_error U ib it pre c post w msg :
  repo.AllCommits (index.gitChartRepo ib) = ok it →
  object.pending it = pre ++ c :: post →
  (∀ c', c' ∈ pre → readable U ib c') →
  repo.Worktree (index.gitChartRepo ib) = ok w →
  git.Checkout w (object.Hash c) = failed msg →
  index.Build U ib = index.Return None (Some (lib_error msg)).
Proof.
  intros Hit Hp Hpre Hw Hc.
  apply (visited_Some_iff U ib pre (index.versionCommitMap ib)) in Hpre as [m1 Hv].
  unfold index.Build, index.for_loop. rewrite Hit, Hp.
  rewrite (walk_visited _ _ _ _ _ _ _ Hv). cbn [index.walk].
  unfold index.iteration. simpl. by rewrite Hw, Hc.
Qed.

Lemma Build_Checkout_error_witness :
  index.Build sample.parse sample_more.unknown_commit
  = index.Return None (Some (lib_error "object not found")).
Proof.
  apply (Build_Checkout_error sample.parse sample_more.unknown_commit
           {| object.pending := [sample.C1]; object.final := io_EOF |}
           [] sample.C1 [] (sample.worktree_of [])).
  - reflexivity.
  - reflexivity.
  - intros c' Hc'. by apply elem_of_nil in Hc'.
  - reflexivity.
  - reflexivity.
Defined.

(** X13: when the commits before [c] are readable and the base path
    cannot be listed at [c], [Build] returns the error of [ReadDir] and
    no index. *)
Theorem Build_ReadDir_error U ib it pre c post w fs msg :
  repo.AllCommits (index.gitChartRepo ib) = ok it →
  object.pending it = pre ++ c :: post →
  (∀ c', c' ∈ pre → readable U ib c') →
  repo.Worktree (index.gitChartRepo ib) = ok w →
  git.Checkout w (object.Hash c) = ok fs →
  billy.ReadDir fs (index.basePath ib) = failed msg →
  index.Build U ib = index.Return None (Some (lib_error msg)).
Proof.
  intros Hit Hp Hpre Hw Hc Hr.
  apply (visited_Some_iff U ib pre (index.versionCommitMap ib)) in Hpre as [m1 Hv].
  unfold index.Build, index.for_loop. rewrite Hit, Hp.
  rewrite (walk_visited _ _ _ _ _ _ _ Hv). cbn [index.walk].
  unfold index.iteration. simpl. by rewrite Hw, Hc, Hr.
Qed.

Lemma Build_ReadDir_error_witness :
  index.Build sample.parse sample_more.no_base_path
  = index.Return None (Some (lib_error "file does not exist")).
Proof.
  apply (Build_ReadDir_error sample.parse sample_more.no_base_path
           {| object.pending := [sample.C1]; object.final := io_EOF |}
           [] sample.C1 [] (sample.worktree_of [("c1", [])]) (sample.fs_of [])).
  - reflexivity.
  - reflexivity.
  - intros c' Hc'. by apply elem_of_nil in Hc'.
  - reflexivity.
  - reflexivity.
  - reflexivity.
Defined.

(** *** The metadata extractor, case by case *)

(** X14: what [getChartVersion] returns is one of three things: the
    empty version with an error of a collaborator; the empty version
    with a nil error, for a path that is not a directory; or, with a
    nil error, the version of the parsed [Chart.yaml] directly under a
    path that is a directory. *)
Theorem getChartVersion_cases U fs chartPath v err :
  index.getChartVersion U fs chartPath = (v, err) →
  (v = "" ∧ ∃ msg, err = Some (lib_error msg))
  ∨ (v = "" ∧ err = None ∧
     ∃ chartDirInfo, billy.Lstat fs chartPath = ok chartDirInfo ∧
                     billy.IsDir chartDirInfo = false)
  ∨ (err = None ∧
     ∃ chartDirInfo chartYamlFile b chartYaml,
       billy.Lstat fs chartPath = ok chartDirInfo ∧
       billy.IsDir chartDirInfo = true ∧
       billy.Open fs (billy.Join fs chartPath "Chart.yaml") = ok chartYamlFile ∧
       billy.ReadAll chartYamlFile = ok b ∧
       U b = ok chartYaml ∧
       v = chart.Version chartYaml).
Proof.
  unfold index.getChartVersion.
  destruct (billy.Lstat fs chartPath) as [chartDirInfo|msg] eqn:Hl.
  2: { intros [= <- <-]. left. eauto. }
  destruct (billy.IsDir chartDirInfo) eqn:Hd; simpl.
  2: { intros [= <- <-]. right. left. eauto. }
  destruct (billy.Open fs _) as [chartYamlFile|msg] eqn:Ho.
  2: { intros [= <- <-]. left. eauto. }
  destruct (billy.ReadAll chartYamlFile) as [b|msg] eqn:Hr.
  2: { intros [= <- <-]. left. eauto. }
  destruct (U b) as [chartYaml|msg] eqn:Hu.
  2: { intros [= <- <-]. left. eauto. }
  intros [= <- <-]. right. right. split; [done|].
  exists chartDirInfo, chartYamlFile, b, chartYaml. done.
Qed.

Lemma getChartVersion_cases_witness :
  ("1.0.0" = "" ∧ ∃ msg, (None : option error) = Some (lib_error msg))
  ∨ ("1.0.0" = "" ∧ (None : option error) = None ∧
     ∃ chartDirInfo,
       billy.Lstat (sample.fs_of sample.foo_1_0_0) "charts/foo" = ok chartDirInfo ∧
       billy.IsDir chartDirInfo = false)
  ∨ ((None : option error) = None ∧
     ∃ chartDirInfo chartYamlFile b chartYaml,
       billy.Lstat (sample.fs_of sample.foo_1_0_0) "charts/foo" = ok chartDirInfo ∧
       billy.IsDir chartDirInfo = true ∧
       billy.Open (sample.fs_of sample.foo_1_0_0)
         (billy.Join (sample.fs_of sample.foo_1_0_0) "charts/foo" "Chart.yaml")
       = ok chartYamlFile ∧
       billy.ReadAll chartYamlFile = ok b ∧
       sample.parse b = ok chartYaml ∧
       "1.0.0" = chart.Version chartYaml).
Proof.
  apply (getChartVersion_cases sample.parse (sample.fs_of sample.foo_1_0_0)
           "charts/foo" "1.0.0" None).
  reflexivity.
Defined.

(** *** What the builder reads of a chart file *)

Lemma getChartVersion_same_versions U U' fs chartPath :
  same_versions U U' →
  index.getChartVersion U fs chartPath = index.getChartVersion U' fs chartPath.
Proof.
  intros HU. unfold index.getChartVersion.
  destruct (billy.Lstat fs chartPath) as [chartDirInfo|msg]; [|done].
  destruct (negb (billy.IsDir chartDirInfo)); [done|].
  destruct (billy.Open fs _) as [chartYamlFile|msg]; [|done].
  destruct (billy.ReadAll chartYamlFile) as [b|msg]; [|done].
  specialize (HU b). destruct (U b), (U' b); try done; by rewrite HU.
Qed.

Lemma walk_same_versions U U' ib cs final m :
  same_versions U U' →
  index.walk U ib cs final m = index.walk U' ib cs final m.
Proof.
  intros HU.
  assert (∀ fs basePath c es m,
            index.range_entries U fs basePath c es m
            = index.range_entries U' fs basePath c es m) as Hr.
  { intros fs basePath c es. induction es as [|entry es IH]; intros m'; simpl; [done|].
    rewrite (getChartVersion_same_versions U U') by done.
    destruct (index.getChartVersion U' fs _) as [v [err|]]; [|by apply IH].
    case_bool_decide; [done|by apply IH]. }
  assert (∀ c err m, index.iteration U ib c err m = index.iteration U' ib c err m)
    as Hi.
  { intros c err m'. unfold index.iteration.
    destruct (_ && _); [done|].
    destruct (repo.Worktree _) as [w|msg]; [|done].
    destruct c as [c|]; [|done].
    destruct (git.Checkout w _) as [fs|msg]; [|done].
    destruct (billy.ReadDir fs _) as [entries|msg]; [|done].
    by rewrite Hr. }
  revert m. induction cs as [|c cs IH]; intros m; cbn [index.walk].
  - by rewrite Hi.
  - rewrite Hi. destruct (index.iteration U' ib (Some c) None m); [apply IH|done..].
Qed.

(** X15: of a chart file [Build] uses the version only.  Two parsers
    that fail alike and agree on the version of every chart file give
    the same outcome, whatever name and API version they report: the
    name of a package is that of its directory. *)
Theorem Build_ignores_declared_name U U' ib :
  same_versions U U' → index.Build U ib = index.Build U' ib.
Proof.
  intros HU. unfold index.Build, index.for_loop.
  destruct (repo.AllCommits _) as [it|msg]; [|done].
  by rewrite (walk_same_versions U U').
Qed.

Lemma Build_ignores_declared_name_witness :
  index.Build sample.parse sample.two_charts
  = index.Build sample_more.parse_named sample.two_charts.
Proof.
  apply Build_ignores_declared_name.
  intros b. unfold sample_more.parse_named.
  destruct (sample.parse b); reflexivity.
Defined.

(** *** The comparison function *)

(** X16: the function given to [sort.Slice] is a strict total order on
    the keys: no key is less than itself, it is transitive, and of two
    different keys one is less than the other. *)
Theorem less_strict_total_order :
  (∀ a, index.less a a = false)
  ∧ (∀ a b c, index.less a b = true → index.less b c = true →
              index.less a c = true)
  ∧ (∀ a b, index.less a b = true ∨ a = b ∨ index.less b a = true).
Proof.
  split; [apply less_irrefl|]. split; [apply less_trans|].
  intros a b. destruct (index.less a b) eqn:Hab; [by left|].
  destruct (index.less b a) eqn:Hba; [by right; right|].
  right. left. by apply less_connex.
Qed.

(** *** The order of the walk *)





(** *** The order of the index file *)

(** X19: the entries of the index file of a returned index follow the
    strict order of the keys they were made for: of two consecutive
    entries the earlier has the smaller [Name], or the same [Name] and
    the smaller [ApiVersion], the field [Build] puts the version of the
    key in; both are compared byte by byte. *)
Theorem catalog_sorted_by_key U ib idx i e1 e2 :
  index.Build U ib = index.Return (Some idx) None →
  index.IndexFile idx !! i = Some e1 →
  index.IndexFile idx !! S i = Some e2 →
  String.ltb (chart.Name (helmrepo.Metadata e1))
             (chart.Name (helmrepo.Metadata e2)) = true
  ∨ (chart.Name (helmrepo.Metadata e1) = chart.Name (helmrepo.Metadata e2)
     ∧ String.ltb (chart.ApiVersion (helmrepo.Metadata e1))
                  (chart.ApiVersion (helmrepo.Metadata e2)) = true).
Proof.
  intros HB H1 H2.
  apply Build_index in HB as (_ & it & _ & _ & ->).
  eapply derive_sorted_by_key; done.
Qed.

Lemma catalog_sorted_by_key_witness :
  String.ltb (chart.Name (helmrepo.Metadata (entry_of sample.foo)))
             (chart.Name (helmrepo.Metadata (entry_of sample_rerun.foo_2))) = true
  ∨ (chart.Name (helmrepo.Metadata (entry_of sample.foo))
     = chart.Name (helmrepo.Metadata (entry_of sample_rerun.foo_2))
     ∧ String.ltb (chart.ApiVersion (helmrepo.Metadata (entry_of sample.foo)))
                  (chart.ApiVersion (helmrepo.Metadata (entry_of sample_rerun.foo_2)))
       = true).
Proof.
  assert (index.Build sample.parse sample_rerun.two_versions
          = index.Return
              (Some (index.derive {[ sample.foo := info_of sample.C1;
                                     sample_rerun.foo_2 := info_of sample.C2 ]})) None)
    as HB by (vm_compute; reflexivity).
  refine (catalog_sorted_by_key sample.parse sample_rerun.two_versions _ 0
            (entry_of sample.foo) (entry_of sample_rerun.foo_2) HB _ _).
  - vm_compute. reflexivity.
  - vm_compute. reflexivity.
Defined.

(** *** A history that cannot be read at all *)

(** X18: when the very first [Next] fails with an error other than
    [io.EOF], a new builder returns the empty index and a nil error:
    the error of the repository is dropped, and neither the work tree
    nor the parser is used. *)
Theorem Build_empty_index_on_first_Next_error U r basePath final :
  repo.AllCommits r = ok {| object.pending := []; object.final := final |} →
  final ≠ io_EOF →
  index.Build U (index.SetBasePath (index.NewGitChartIndexBuilder r) basePath)
  = index.Return
      (Some {| index.IndexFile := []; index.chartNameVersionToCommitMap := ∅ |})
      None.
Proof.
  intros Hit Hf.
  rewrite (Build_Next_error U _ {| object.pending := []; object.final := final |} ∅);
    [|done..].
  unfold index.derive, index.range_keys. by rewrite map_to_list_empty.
Qed.

Lemma Build_empty_index_on_first_Next_error_witness :
  index.Build sample_more.parse_named
    (index.SetBasePath
       (index.NewGitChartIndexBuilder
          {| repo.AllCommits :=
               ok {| object.pending := [];
                     object.final := lib_error "reference not found" |};
             repo.Worktree := failed "worktree not available in a bare repository" |})
       "charts")
  = index.Return
      (Some {| index.IndexFile := []; index.chartNameVersionToCommitMap := ∅ |})
      None.
Proof.
  apply (Build_empty_index_on_first_Next_error sample_more.parse_named _ "charts"
           (lib_error "reference not found")).
  - reflexivity.
  - discriminate.
Defined.
